(** * goBloodyEll: the batch execution engine

    A shallow embedding of the admission planner ([schema.CanRunCypher]),
    the retry policy ([neo4jrunner.execWithRetries], [looksTransient]), the
    worker pool ([neo4jrunner.Run]), the row collector
    ([neo4jrunner.ExecCypher]) and the result merge of [main], followed by
    the properties established about them.

    Conventions.
    - Go [string]s are byte strings ([String.string]).  [strings.ToLower]
      and [strings.TrimSpace] are embedded on their ASCII range; bytes
      above 0x7f are left as they are.
    - Go [int] and [time.Duration] values are [Z]; [time.Duration] is a
      64-bit count of nanoseconds and its arithmetic wraps ([wrap64]).
    - A Go [error] value is [option error], [None] being [nil].
    - The modules follow the Go packages. *)

From Stdlib Require Import ZArith String Ascii List Lia DecimalString.
From stdpp Require Import base gmap strings list sorting.
Import ListNotations.
Open Scope Z_scope.

(* ===================================================================== *)
(** * Part I.  The embedding                                              *)
(* ===================================================================== *)

(** ** Package [strings] (the functions the engine calls) *)

Module strings.

(** Text all of whose bytes are below 0x80.  On such text Go's
    [strings.ToLower], [strings.TrimSpace] and [strings.Fields] work byte
    by byte, as the definitions below do.  On other text Go decodes runes
    and consults the Unicode tables (U+212A is lowered to "k", U+00A0 is
    white space), which are not modelled here: a theorem that applies one
    of these functions to a text of the caller's assumes the text ASCII. *)
Definition isASCII (s : string) : bool :=
  forallb (fun c => (N_of_ascii c <? 128)%N) (list_ascii_of_string s).

Definition isUpper (c : ascii) : bool :=
  ((65 <=? N_of_ascii c) && (N_of_ascii c <=? 90))%N.

Definition toLowerByte (c : ascii) : ascii :=
  if isUpper c then ascii_of_N (N_of_ascii c + 32) else c.

(** [strings.ToLower] on ASCII text: the letters 'A' to 'Z' are lowered,
    every other byte is kept. *)
Fixpoint ToLower (s : string) : string :=
  match s with
  | EmptyString => EmptyString
  | String c t => String (toLowerByte c) (ToLower t)
  end.

(** [Contains s substr]: [substr] occurs in [s] at some offset. *)
Fixpoint Contains (s substr : string) : bool :=
  String.prefix substr s ||
  match s with
  | EmptyString => false
  | String _ t => Contains t substr
  end.

(** The white space of ASCII: '\t', '\n', '\v', '\f', '\r' and ' '. *)
Definition isSpace (c : ascii) : bool :=
  ((9 <=? N_of_ascii c) && (N_of_ascii c <=? 13) || (N_of_ascii c =? 32))%N.

Fixpoint trimLeft (l : list ascii) : list ascii :=
  match l with
  | c :: t => if isSpace c then trimLeft t else l
  | [] => []
  end.

(** [strings.TrimSpace] on ASCII text. *)
Definition TrimSpace (s : string) : string :=
  string_of_list_ascii
    (rev (trimLeft (rev (trimLeft (list_ascii_of_string s))))).

End strings.

(** [fmt.Sprintf "%d"] on an [int]. *)
Definition Sprintf_d (n : Z) : string := NilZero.string_of_int (Z.to_int n).

(** ** Package [neo4jrunner] *)

Module neo4jrunner.

(** Values of Go's [any] that the driver yields; their shape plays no part
    below. *)
Inductive any : Type :=
| ANil
| AInt (n : Z)
| ABool (b : bool)
| AString (s : string).

Record ResultSet : Type := mkResultSet {
  Columns : list string;
  Rows : list (list any)
}.

(** [ResultSet{}]. *)
Definition emptyResultSet : ResultSet := mkResultSet [] [].

(** A non-nil Go [error].  [neo4jClassification] is [Some c] when
    [errors.As(err, &neo4jErr)] succeeds, [c] being
    [neo4jErr.Classification()]; [Error] is [err.Error()]. *)
Record error : Type := mkError {
  neo4jClassification : option string;
  Error : string
}.

Record QueryJob : Type := mkQueryJob {
  Index : Z;
  ID : string;
  Name : string;
  Cypher : string
}.

Record QueryResult : Type := mkQueryResult {
  ResultSet' : ResultSet;
  Err : option error;
  Skipped : bool;
  SkipWhy : string
}.

(** The zero value [QueryResult{}] that [make] fills the slots with. *)
Definition zeroQueryResult : QueryResult :=
  mkQueryResult emptyResultSet None false "".

Record RunnerOpts : Type := mkRunnerOpts {
  DB : string;
  Limit : Z;
  Parallel : Z;
  PerQueryTimeout : Z;
  Retries : Z;
  FailFast : bool;
  Verbose : bool
}.

(** *** [looksTransient] *)

Definition transientSubstrings : list string :=
  ["connection refused"; "i/o timeout"; "temporary"; "EOF"; "broken pipe";
   "reset by peer"; "ServiceUnavailable"]%string.

Definition looksTransient (err : error) : bool :=
  match neo4jClassification err with
  | Some c => if String.eqb c "TransientError" then true else false
  | None =>
      existsb
        (fun sub => strings.Contains (strings.ToLower (Error err)) (strings.ToLower sub))
        transientSubstrings
  end.

(** *** [execWithRetries] *)

(** 64-bit two's complement wrap-around. *)
Definition wrap64 (z : Z) : Z := (z + 2 ^ 63) mod 2 ^ 64 - 2 ^ 63.

(** [time.Millisecond], in nanoseconds. *)
Definition Millisecond : Z := 1000000.

(** [time.Duration(200*(attempt+1)) * time.Millisecond]. *)
Definition backoff (attempt : Z) : Z :=
  wrap64 (wrap64 (200 * wrap64 (attempt + 1)) * Millisecond).

(** What one call of [execWithRetries] meets, indexed by the attempt:
    - [exec a]: what the [a]-th call [exec(ctx, sess, cypher, limit)]
      returns (the arguments are the same at every attempt);
    - [ctxErr a]: [ctx.Err()] right after attempt [a] failed;
    - [ctxDone a]: [Some e] when [ctx.Done()] fires before the timer during
      the backoff that follows attempt [a], [e] being [ctx.Err()] then. *)
Record World : Type := mkWorld {
  exec : Z -> ResultSet * option error;
  ctxErr : Z -> option error;
  ctxDone : Z -> option error
}.

(** What the function does besides returning. *)
Inductive event : Type :=
| EvExec (attempt : Z)
| EvSleep (d : Z)
| EvInterrupted (d : Z).

(** The loop [for attempt := 0; attempt <= retries; attempt++], with [n]
    iterations left.  The counter does not wrap while
    [attempt <= retries < 2^63 - 1]. *)
Fixpoint retryLoop (w : World) (n : nat) (attempt : Z) (lastErr : option error)
  : ResultSet * option error * list event :=
  match n with
  | O => (emptyResultSet, lastErr, [])
  | S n' =>
      match exec w attempt with
      | (rs, None) => (rs, None, [EvExec attempt])
      | (_, Some err) =>
          match ctxErr w attempt with
          | Some cerr => (emptyResultSet, Some cerr, [EvExec attempt])
          | None =>
              if negb (looksTransient err) then
                (emptyResultSet, Some err, [EvExec attempt])
              else
                match ctxDone w attempt with
                | Some cerr =>
                    (emptyResultSet, Some cerr,
                     [EvExec attempt; EvInterrupted (backoff attempt)])
                | None =>
                    let '(rs', err', tr) := retryLoop w n' (attempt + 1) (Some err) in
                    (rs', err', EvExec attempt :: EvSleep (backoff attempt) :: tr)
                end
          end
      end
  end.

Definition execWithRetries (w : World) (retries : Z)
  : ResultSet * option error * list event :=
  retryLoop w (Z.to_nat (retries + 1)) 0 None.

(** Number of [exec] calls in a trace. *)
Fixpoint attempts (tr : list event) : nat :=
  match tr with
  | [] => O
  | EvExec _ :: tr' => S (attempts tr')
  | _ :: tr' => attempts tr'
  end.

(** *** [ExecCypher] *)

(** Lines 26-29: the text handed to [tx.Run]. *)
Definition queryText (cypher : string) (limit : Z) : string :=
  let cy := strings.TrimSpace cypher in
  if (0 <? limit) && negb (strings.Contains (strings.ToLower cy) "limit") then
    (cy ++ String "010" "LIMIT " ++ Sprintf_d limit)%string
  else cy.

(** A record of the driver. *)
Record Record' : Type := mkRecord {
  Keys : list string;
  Values : list any
}.

(** The driver's [rec.Get(k)]: the value at the first position of [k] in
    [rec.Keys]; the [bool] it also returns is dropped by the caller. *)
Fixpoint lookupKey (k : string) (keys : list string) (vals : list any) : any :=
  match keys, vals with
  | ck :: keys', v :: vals' => if String.eqb k ck then v else lookupKey k keys' vals'
  | _, _ => ANil
  end.

Definition Get (rec : Record') (k : string) : any :=
  lookupKey k (Keys rec) (Values rec).

(** Lines 43-47: the row made of a record. *)
Definition rowOf (rec : Record') : list any := map (Get rec) (Keys rec).

(** What [tx.Run] hands back: the records [res.Next] steps through, and the
    error [res.Err()] reports once [res.Next] has returned [false]. *)
Record Result' : Type := mkResult {
  records : list Record';
  resErr : option error
}.

(** The session as [ExecCypher] meets it: [sess.ExecuteRead] may fail before
    the work function runs ([txBegin]) or when committing ([txCommit]);
    [txRun cy] is [tx.Run(ctx, cy, nil)].  The work function is run once. *)
Record Session : Type := mkSession {
  txBegin : option error;
  txRun : string -> error + Result';
  txCommit : option error
}.

(** The loop [for res.Next(ctx) { ... }] of lines 38-52.  A nil [cols] is
    the empty list: [append([]string(nil), rec.Keys...)] is nil exactly when
    [rec.Keys] is empty.  The [bool] tells whether [res.Next] returned
    [false] (the loop was not left by [break]). *)
Fixpoint collect (limit : Z) (recs : list Record') (cols : list string)
    (rows : list (list any)) : list string * list (list any) * bool :=
  match recs with
  | [] => (cols, rows, true)
  | rec :: recs' =>
      let cols' := match cols with [] => Keys rec | _ => cols end in
      let rows' := rows ++ [rowOf rec] in
      if (0 <? limit) && (limit <=? Z.of_nat (length rows')) then
        (cols', rows', false)
      else collect limit recs' cols' rows'
  end.

Definition ExecCypher (sess : Session) (cypher : string) (limit : Z)
  : ResultSet * option error :=
  let cy := queryText cypher limit in
  match txBegin sess with
  | Some err => (emptyResultSet, Some err)
  | None =>
      match txRun sess cy with
      | inl err => (emptyResultSet, Some err)
      | inr res =>
          let '(cols, rows, exhausted) := collect limit (records res) [] [] in
          match (if exhausted then resErr res else None) with
          | Some err => (emptyResultSet, Some err)
          | None =>
              match txCommit sess with
              | Some err => (emptyResultSet, Some err)
              | None => (mkResultSet cols rows, None)
              end
          end
      end
  end.

(** *** [Run]

    The goroutines of [Run] as a transition system; every interleaving of
    the workers and the producer is a path of [step]. *)

(** Where a worker goroutine stands. *)
Inductive worker : Type :=
| AtSelect                  (* line 69, at the [select] *)
| Running (job : QueryJob)  (* lines 76-87, [job] received *)
| Recorded (failed : bool)  (* line 88 done; [failed] is [err != nil] *)
| Exited.                   (* returned, [wg.Done()] ran *)

Record state : Type := mkState {
  pending : list QueryJob;   (* the jobs the producer has yet to send *)
  jobsClosed : bool;         (* [close(jobsCh)] ran *)
  stopped : bool;            (* [close(stopCh)] ran *)
  workers : list worker;
  out : list QueryResult;
  executed : list (QueryJob * QueryResult);  (* ghost: the outcomes produced *)
  panicked : bool            (* an index was out of range *)
}.

(** Lines 46-51. *)
Definition normalize (opts : RunnerOpts) : RunnerOpts :=
  mkRunnerOpts (DB opts) (Limit opts)
    (if Parallel opts <? 1 then 1 else Parallel opts)
    (PerQueryTimeout opts)
    (if Retries opts <? 0 then 0 else Retries opts)
    (FailFast opts) (Verbose opts).

Definition init (opts : RunnerOpts) (jobs : list QueryJob) : state :=
  mkState jobs false false
    (replicate (Z.to_nat (Parallel opts)) AtSelect)
    (replicate (length jobs) zeroQueryResult)
    [] false.

(** One step of one goroutine.  [select] may take any case that is ready:
    a closed [stopCh] is given no priority over a ready [jobsCh]. *)
Inductive step (opts : RunnerOpts) : state -> state -> Prop :=
| step_dispatch j rest st ws o ex w :
    (* producer line 103 meets worker line 72 *)
    ws !! w = Some AtSelect ->
    step opts (mkState (j :: rest) false st ws o ex false)
              (mkState rest false st (<[w := Running j]> ws) o ex false)
| step_record p c st ws o ex w j world rs err tr :
    (* lines 84-88 *)
    ws !! w = Some (Running j) ->
    execWithRetries world (Retries opts) = (rs, err, tr) ->
    0 <= Index j < Z.of_nat (length o) ->
    step opts (mkState p c st ws o ex false)
              (mkState p c st (<[w := Recorded (bool_decide (err <> None))]> ws)
                 (<[Z.to_nat (Index j) := mkQueryResult rs err false ""]> o)
                 ((j, mkQueryResult rs err false "") :: ex) false)
| step_panic p c st ws o ex w j :
    (* line 88 with [job.Index] out of range *)
    ws !! w = Some (Running j) ->
    ~ (0 <= Index j < Z.of_nat (length o)) ->
    step opts (mkState p c st ws o ex false) (mkState p c st ws o ex true)
| step_signal p c st ws o ex w failed :
    (* lines 89-91, then back to the [select] *)
    ws !! w = Some (Recorded failed) ->
    step opts (mkState p c st ws o ex false)
              (mkState p c (st || (failed && FailFast opts)) (<[w := AtSelect]> ws) o ex false)
| step_worker_stop p c ws o ex w :
    (* line 70 *)
    ws !! w = Some AtSelect ->
    step opts (mkState p c true ws o ex false)
              (mkState p c true (<[w := Exited]> ws) o ex false)
| step_worker_closed p st ws o ex w :
    (* lines 72-75 with [ok == false] *)
    ws !! w = Some AtSelect ->
    step opts (mkState p true st ws o ex false)
              (mkState p true st (<[w := Exited]> ws) o ex false)
| step_producer_done st ws o ex :
    (* the [range] of line 99 is over *)
    step opts (mkState [] false st ws o ex false) (mkState [] true st ws o ex false)
| step_producer_stop j rest ws o ex :
    (* line 101 *)
    step opts (mkState (j :: rest) false true ws o ex false)
              (mkState (j :: rest) true true ws o ex false).

(** [wg.Wait()] returns: every worker has exited. *)
Definition finished (s : state) : Prop :=
  panicked s = false /\ Forall (fun w => w = Exited) (workers s).

(** The states [Run(ctx, driver, jobs, opts, exec)] passes through; it
    returns [out s] from a [finished] one. *)
Definition reachable (opts : RunnerOpts) (jobs : list QueryJob) (s : state) : Prop :=
  rtc (step (normalize opts)) (init (normalize opts) jobs) s.

(** The jobs that workers hold. *)
Fixpoint running (ws : list worker) : list QueryJob :=
  match ws with
  | [] => []
  | Running j :: ws' => j :: running ws'
  | _ :: ws' => running ws'
  end.

Definition weight (w : worker) : nat :=
  match w with
  | Exited => 0
  | AtSelect => 1
  | Recorded _ => 2
  | Running _ => 3
  end.

(** A bound on the number of steps left. *)
Definition measure (s : state) : nat :=
  (3 * length (pending s) + (if jobsClosed s then 0 else 1)
   + (if panicked s then 0 else 1)
   + foldr (fun w n => weight w + n) 0 (workers s))%nat.

(** What holds of every state of [Run] on [jobs]: no panic; the slots are
    as many as the jobs; every job is pending, held by a worker or executed,
    and only one of these; the outcome of an executed job is in the slot of
    its [Index]; a slot that is the [Index] of no executed job holds the
    zero value. *)
Definition invariant (jobs : list QueryJob) (s : state) : Prop :=
  panicked s = false
  /\ length (out s) = length jobs
  /\ (executed s).*1 ++ running (workers s) ++ pending s ≡ₚ jobs
  /\ (forall j r, (j, r) ∈ executed s -> out s !! Z.to_nat (Index j) = Some r)
  /\ (forall i, (i < length jobs)%nat ->
        (forall j r, (j, r) ∈ executed s -> Z.to_nat (Index j) <> i) ->
        out s !! i = Some zeroQueryResult).

End neo4jrunner.

(** ** Package [queries] *)

Module queries.

Record Query : Type := mkQuery {
  ID : string;
  Title : string;
  Category : string;
  SheetName : string;
  Headers : list string;
  Description : string;
  FindingTitle : string;
  Cypher : string
}.

End queries.

(** ** Package [schema] *)

Module schema.

(** The two maps of [Presence], used as sets. *)
Record Presence : Type := mkPresence {
  Labels : gset string;
  Rels : gset string
}.

(** The class [[A-Za-z0-9_]]. *)
Definition isIdent (c : ascii) : bool :=
  ((65 <=? N_of_ascii c) && (N_of_ascii c <=? 90)
   || (97 <=? N_of_ascii c) && (N_of_ascii c <=? 122)
   || (48 <=? N_of_ascii c) && (N_of_ascii c <=? 57)
   || (N_of_ascii c =? 95))%N.

(** The longest run of identifier bytes at the head: what the greedy
    [[A-Za-z0-9_]+] consumes. *)
Fixpoint identRun (l : list ascii) : list ascii :=
  match l with
  | c :: t => if isIdent c then c :: identRun t else []
  | [] => []
  end.

(** A regular expression with one group, given by its match anchored at the
    head of the text: the length of the match and the text of group 1. *)
Definition regexp : Type := list ascii -> option (nat * string).

(** [:([A-Za-z0-9_]+)] *)
Definition reLabel : regexp := fun l =>
  match l with
  | ":"%char :: t =>
      match identRun t with
      | [] => None
      | id => Some (S (length id), string_of_list_ascii id)
      end
  | _ => None
  end.

(** [\[:([A-Za-z0-9_]+)] *)
Definition reRel : regexp := fun l =>
  match l with
  | "["%char :: ":"%char :: t =>
      match identRun t with
      | [] => None
      | id => Some (S (S (length id)), string_of_list_ascii id)
      end
  | _ => None
  end.

(** The successive leftmost matches of [re], none overlapping the one
    before: [pos] is the offset of the head of [l], [skip] the number of
    bytes still covered by the last match.  Each match is given by its
    offset and its group 1. *)
Fixpoint findAll (re : regexp) (pos skip : nat) (l : list ascii)
  : list (nat * string) :=
  match l with
  | [] => []
  | _ :: t =>
      match skip with
      | S k => findAll re (S pos) k t
      | O =>
          match re l with
          | Some (len, g) => (pos, g) :: findAll re (S pos) (Nat.pred len) t
          | None => findAll re (S pos) O t
          end
      end
  end.

Definition FindAllStringSubmatchIndex (re : regexp) (s : string)
  : list (nat * string) :=
  findAll re O O (list_ascii_of_string s).

(** [re.FindAllStringSubmatch(s, -1)], each match [m] given by [m[1]]. *)
Definition FindAllStringSubmatch (re : regexp) (s : string) : list string :=
  map snd (FindAllStringSubmatchIndex re s).

(** One of the two [for _, m := range ...] loops of [CanRunCypher]: [known]
    is the set looked up, [what] the class named in the reason, [next] what
    follows the loop. *)
Fixpoint checkAll (known : gset string) (what : string) (ms : list string)
    (next : bool * string) : bool * string :=
  match ms with
  | [] => next
  | m1 :: ms' =>
      let l := strings.ToLower m1 in
      if String.eqb l "" then checkAll known what ms' next
      else if bool_decide (l ∈ known) then checkAll known what ms' next
      else (false, ("missing " ++ what ++ ": " ++ m1)%string)
  end.

Definition CanRunCypher (cypher : string) (p : Presence) : bool * string :=
  checkAll (Labels p) "label" (FindAllStringSubmatch reLabel cypher)
    (checkAll (Rels p) "relationship type" (FindAllStringSubmatch reRel cypher)
       (true, ""%string)).

End schema.

(** ** Package [report] *)

Module report.

Record Output : Type := mkOutput {
  Query : queries.Query;
  Result : neo4jrunner.ResultSet;
  Error : string;
  Skipped : bool;
  SkipWhy : string
}.

(** The zero value [Output{}]. *)
Definition zeroOutput : Output :=
  mkOutput (queries.mkQuery "" "" "" "" [] "" "" "") neo4jrunner.emptyResultSet
    "" false "".

End report.

(** ** Package [main]: lines 249-274 *)

Module main.

(** The loop of lines 253-263, at query index [i]. *)
Fixpoint planLoop (schemaSkip : bool) (presence : schema.Presence) (i : nat)
    (qs : list queries.Query) (outs : list report.Output)
    (jobs : list neo4jrunner.QueryJob) (jobToQueryIdx : list nat)
  : list report.Output * list neo4jrunner.QueryJob * list nat :=
  match qs with
  | [] => (outs, jobs, jobToQueryIdx)
  | q :: qs' =>
      match (if schemaSkip then schema.CanRunCypher (queries.Cypher q) presence
             else (true, ""%string)) with
      | (false, why) =>
          planLoop schemaSkip presence (S i) qs'
            (<[i := report.mkOutput q neo4jrunner.emptyResultSet "" true why]> outs)
            jobs jobToQueryIdx
      | (true, _) =>
          planLoop schemaSkip presence (S i) qs' outs
            (jobs ++ [neo4jrunner.mkQueryJob (Z.of_nat (length jobs))
                        (queries.ID q) (queries.SheetName q) (queries.Cypher q)])
            (jobToQueryIdx ++ [i])
      end
  end.

(** Lines 249-263. *)
Definition plan (schemaSkip : bool) (presence : schema.Presence)
    (qs : list queries.Query)
  : list report.Output * list neo4jrunner.QueryJob * list nat :=
  planLoop schemaSkip presence O qs (replicate (length qs) report.zeroOutput) [] [].

(** The [Output] of lines 269-272. *)
Definition outputOf (q : queries.Query) (r : neo4jrunner.QueryResult) : report.Output :=
  report.mkOutput q (neo4jrunner.ResultSet' r)
    (match neo4jrunner.Err r with
     | Some err => neo4jrunner.Error err
     | None => ""%string
     end)
    false "".

(** The loop of lines 267-274, at result index [j]; [None] is the panic of
    an index out of range. *)
Fixpoint mergeLoop (qs : list queries.Query) (jobToQueryIdx : list nat) (j : nat)
    (results : list neo4jrunner.QueryResult) (outs : list report.Output)
  : option (list report.Output) :=
  match results with
  | [] => Some outs
  | r :: results' =>
      match jobToQueryIdx !! j with
      | None => None
      | Some i =>
          match qs !! i with
          | None => None
          | Some q =>
              if bool_decide (i < length outs)%nat then
                mergeLoop qs jobToQueryIdx (S j) results' (<[i := outputOf q r]> outs)
              else None
          end
      end
  end.

(** Lines 249-274, [results] being what [neo4jrunner.Run] returned for the
    planned jobs. *)
Definition assemble (schemaSkip : bool) (presence : schema.Presence)
    (qs : list queries.Query) (results : list neo4jrunner.QueryResult)
  : option (list report.Output) :=
  let '(outs, _, jobToQueryIdx) := plan schemaSkip presence qs in
  mergeLoop qs jobToQueryIdx O results outs.

End main.

(** ** The reading of the specification that the code is compared with *)

Module spec.

(** The substring table as the specification words it. *)
Definition transientSubstrings : list string :=
  ["connection refused"; "timeout"; "temporary failure";
   "unexpected end of stream"; "broken pipe"; "connection reset";
   "service unavailable"]%string.

(** Transient as the specification words it: marked so by the backend's
    classification or, when there is none, a message that contains one of
    [transientSubstrings], case-insensitively. *)
Definition transient (err : neo4jrunner.error) : bool :=
  match neo4jrunner.neo4jClassification err with
  | Some c => String.eqb c "TransientError"
  | None =>
      existsb
        (fun sub => strings.Contains (strings.ToLower (neo4jrunner.Error err))
                      (strings.ToLower sub))
        transientSubstrings
  end.

End spec.

(** [sub] occurs in [s]. *)
Definition occursIn (sub s : string) : Prop :=
  exists pre post : string, s = (pre ++ sub ++ post)%string.

(** [s] contains [sub] when case is ignored. *)
Definition containsFold (s sub : string) : Prop :=
  occursIn (strings.ToLower sub) (strings.ToLower s).

(** In the world [w], attempt [a] fails with a transient error. *)
Definition failsTransiently (w : neo4jrunner.World) (a : Z) : Prop :=
  exists err, snd (neo4jrunner.exec w a) = Some err
              /\ neo4jrunner.looksTransient err = true.

(** In the world [w], the context is neither found done after attempt [a]
    nor fires during the backoff that follows it. *)
Definition ctxAlive (w : neo4jrunner.World) (a : Z) : Prop :=
  neo4jrunner.ctxErr w a = None /\ neo4jrunner.ctxDone w a = None.

(** The events of [k] attempts in a row, from attempt [a] on, each followed
    by its full backoff. *)
Fixpoint retried (a : Z) (k : nat) : list neo4jrunner.event :=
  match k with
  | O => []
  | S k' =>
      neo4jrunner.EvExec a :: neo4jrunner.EvSleep (neo4jrunner.backoff a)
        :: retried (a + 1) k'
  end.

(** The value of [lastErr] after [k] failed attempts from attempt [a] on. *)
Definition lastErrAfter (w : neo4jrunner.World) (a : Z) (k : nat)
    (lastErr : option neo4jrunner.error) : option neo4jrunner.error :=
  match k with
  | O => lastErr
  | S k' => snd (neo4jrunner.exec w (a + Z.of_nat k'))
  end.

(** A token is resolved in [known] when its lowercase form is there. *)
Definition resolved (known : gset string) (m : string) : Prop :=
  strings.ToLower m ∈ known.

(** The planner's verdict on [q]: [Some why] when lines 254-259 skip it. *)
Definition skipReason (schemaSkip : bool) (presence : schema.Presence)
    (q : queries.Query) : option string :=
  match (if schemaSkip then schema.CanRunCypher (queries.Cypher q) presence
         else (true, ""%string)) with
  | (false, why) => Some why
  | (true, _) => None
  end.

(** The job of line 261 for [q], [j] jobs having been planned before. *)
Definition jobFor (j : nat) (q : queries.Query) : neo4jrunner.QueryJob :=
  neo4jrunner.mkQueryJob (Z.of_nat j) (queries.ID q) (queries.SheetName q)
    (queries.Cypher q).

(** The [Output] of line 257. *)
Definition skippedOutput (q : queries.Query) (why : string) : report.Output :=
  report.mkOutput q neo4jrunner.emptyResultSet "" true why.

(** What holds of the three slices of lines 249-251 once the queries before
    index [i] have been planned. *)
Definition planned (schemaSkip : bool) (presence : schema.Presence)
    (qs : list queries.Query) (i : nat)
    (outs : list report.Output) (jobs : list neo4jrunner.QueryJob)
    (jobToQueryIdx : list nat) : Prop :=
  length outs = length qs
  /\ length jobs = length jobToQueryIdx
  /\ Forall (fun k => (k < i)%nat) jobToQueryIdx
  /\ NoDup jobToQueryIdx
  /\ (forall j k, jobToQueryIdx !! j = Some k ->
        exists q, qs !! k = Some q
                  /\ skipReason schemaSkip presence q = None
                  /\ jobs !! j = Some (jobFor j q))
  /\ (forall k q, (k < i)%nat -> qs !! k = Some q ->
        match skipReason schemaSkip presence q with
        | Some why => outs !! k = Some (skippedOutput q why) /\ k ∉ jobToQueryIdx
        | None => k ∈ jobToQueryIdx
        end).

(** ** Sample inputs *)

Module sample.

Import neo4jrunner.

Definition errTimeout : error := mkError None "read tcp 10.0.0.5:7687: i/o timeout".
Definition errSyntax : error := mkError (Some "ClientError"%string) "Neo4jError: Neo.ClientError.Statement.SyntaxError".
Definition errDeadline : error := mkError None "context deadline exceeded".
Definition rsOne : ResultSet := mkResultSet ["n"%string] [[AInt 1]].

(** One transient failure, then success; the context never done. *)
Definition worldFlaky : World :=
  mkWorld (fun a => if a <? 1 then (emptyResultSet, Some errTimeout) else (rsOne, None))
    (fun _ => None) (fun _ => None).

(** As [worldFlaky], the deadline having passed when the first attempt
    fails. *)
Definition worldExpired : World :=
  mkWorld (fun a => if a <? 1 then (emptyResultSet, Some errTimeout) else (rsOne, None))
    (fun _ => Some errDeadline) (fun _ => None).

(** A malformed query. *)
Definition worldPermanent : World :=
  mkWorld (fun _ => (emptyResultSet, Some errSyntax)) (fun _ => None) (fun _ => None).

(** Transient failures throughout, the deadline passing during the second
    backoff. *)
Definition worldInterrupted : World :=
  mkWorld (fun _ => (emptyResultSet, Some errTimeout)) (fun _ => None)
    (fun a => if a =? 1 then Some errDeadline else None).

(** A BloodHound-like inventory. *)
Definition presenceAD : schema.Presence :=
  schema.mkPresence {[ "user"; "group"; "computer" ]}%string
                    {[ "memberof"; "adminto" ]}%string.

Definition cypherMembers : string :=
  "MATCH (u:User)-[:MemberOf]->(g:Group) RETURN u.name".

(** An inventory in which "group" names a label and no relationship type,
    and a query whose relationship type comes before its label. *)
Definition presenceSmall : schema.Presence :=
  schema.mkPresence {[ "group" ]}%string {[ "memberof" ]}%string.

Definition cypherRelFirst : string :=
  "MATCH ()-[:Group]->(u:User) RETURN u".

(** Five queries that pass the check against [presenceAD], and the jobs
    planned for them. *)
Definition query (id : string) : queries.Query :=
  queries.mkQuery id id "AD" id ["name"%string] "" "" "MATCH (u:User) RETURN u.name".

Definition qs5 : list queries.Query :=
  [query "q0"; query "q1"; query "q2"; query "q3"; query "q4"].

Definition job (i : Z) (id : string) : QueryJob :=
  mkQueryJob i id id "MATCH (u:User) RETURN u.name".

Definition jobs5 : list QueryJob :=
  [job 0 "q0"; job 1 "q1"; job 2 "q2"; job 3 "q3"; job 4 "q4"].

(** Two workers, one retry, fail-fast. *)
Definition optsFF : RunnerOpts := mkRunnerOpts "neo4j" 0 2 0 1 true true.

(** A backend that answers. *)
Definition worldOK : World :=
  mkWorld (fun _ => (rsOne, None)) (fun _ => None) (fun _ => None).

(** Where [Run optsFF jobs5] stands when q0 and q1 have been handed to the
    two workers, q1 has failed for good, q0 has succeeded and both workers
    have left through [stopCh]. *)
Definition finalFF : state :=
  mkState [job 2 "q2"; job 3 "q3"; job 4 "q4"] false true [Exited; Exited]
    [mkQueryResult rsOne None false ""; mkQueryResult emptyResultSet (Some errSyntax) false "";
     zeroQueryResult; zeroQueryResult; zeroQueryResult]
    [(job 0 "q0", mkQueryResult rsOne None false "");
     (job 1 "q1", mkQueryResult emptyResultSet (Some errSyntax) false "")]
    false.

(** A backend that streams three records whatever the query. *)
Definition record (n : Z) : Record' := mkRecord ["n"%string] [AInt n].

Definition sessThree : Session :=
  mkSession None (fun _ => inr (mkResult [record 1; record 2; record 3] None)) None.


(** The input of [TestOrder]. *)
Definition testOrderInput : list queries.Query :=
  [queries.mkQuery "x" "" "INFO" "" [] "" "" "";
   queries.mkQuery "ad-domain-controllers" "" "AD" "" [] "" "" "";
   queries.mkQuery "ad-domain-admins" "" "AD" "" [] "" "" "";
   queries.mkQuery "ad-all-users-samaccountname" "" "AD" "" [] "" "" "";
   queries.mkQuery "ad-all-computers-fqdn" "" "AD" "" [] "" "" "";
   queries.mkQuery "y" "" "AD" "" [] "" "" "";
   queries.mkQuery "z" "" "EntraID" "" [] "" "" ""].

End sample.

(** ** The ways [execWithRetries] ends *)

(** The call ends at attempt [a], with this result, this error and these
    last events. *)
Inductive endsAt (w : neo4jrunner.World) (a : Z)
  : neo4jrunner.ResultSet -> option neo4jrunner.error -> list neo4jrunner.event -> Prop :=
| ends_success rs :
    (* line 117 *)
    neo4jrunner.exec w a = (rs, None) ->
    endsAt w a rs None [neo4jrunner.EvExec a]
| ends_context_done e cerr :
    (* line 121 *)
    snd (neo4jrunner.exec w a) = Some e ->
    neo4jrunner.ctxErr w a = Some cerr ->
    endsAt w a neo4jrunner.emptyResultSet (Some cerr) [neo4jrunner.EvExec a]
| ends_permanent e :
    (* line 124 *)
    snd (neo4jrunner.exec w a) = Some e ->
    neo4jrunner.ctxErr w a = None ->
    neo4jrunner.looksTransient e = false ->
    endsAt w a neo4jrunner.emptyResultSet (Some e) [neo4jrunner.EvExec a]
| ends_interrupted cerr :
    (* line 132 *)
    failsTransiently w a ->
    neo4jrunner.ctxErr w a = None ->
    neo4jrunner.ctxDone w a = Some cerr ->
    endsAt w a neo4jrunner.emptyResultSet (Some cerr)
      [neo4jrunner.EvExec a; neo4jrunner.EvInterrupted (neo4jrunner.backoff a)].

(** [outcome w retries rs err tr]: either the attempts before [a] were
    retried, each after its full backoff, and the call ends at attempt
    [a <= retries]; or all [retries + 1] attempts were retried and the loop
    ran out (line 136). *)
Inductive outcome (w : neo4jrunner.World) (retries : Z)
  : neo4jrunner.ResultSet -> option neo4jrunner.error -> list neo4jrunner.event -> Prop :=
| outcome_ends a rs err tail :
    0 <= a <= retries ->
    (forall b, 0 <= b < a -> failsTransiently w b /\ ctxAlive w b) ->
    endsAt w a rs err tail ->
    outcome w retries rs err (retried 0 (Z.to_nat a) ++ tail)
| outcome_exhausted e :
    (forall b, 0 <= b <= retries -> failsTransiently w b /\ ctxAlive w b) ->
    snd (neo4jrunner.exec w retries) = Some e ->
    outcome w retries neo4jrunner.emptyResultSet (Some e)
      (retried 0 (Z.to_nat (retries + 1))).

(** The time slept through, in nanoseconds: the full backoffs of a trace. *)
Fixpoint totalSleep (tr : list neo4jrunner.event) : Z :=
  match tr with
  | [] => 0
  | neo4jrunner.EvSleep d :: tr' => d + totalSleep tr'
  | _ :: tr' => totalSleep tr'
  end.

(** ** What else holds of every state of [Run]

    [opts] being the options after lines 46-51: the workers are
    [opts.Parallel]; [stopCh] is closed only under fail-fast and after an
    outcome with an error was recorded; a worker that recorded a failure has
    put it among the outcomes; [jobsCh] is closed only after the stop or
    once every job was sent; a worker has exited only after the stop or the
    close; the jobs not yet sent are a tail of [jobs]; no slot is marked
    skipped. *)
Definition poolInvariant (opts : neo4jrunner.RunnerOpts)
    (jobs : list neo4jrunner.QueryJob) (s : neo4jrunner.state) : Prop :=
  length (neo4jrunner.workers s) = Z.to_nat (neo4jrunner.Parallel opts)
  /\ (neo4jrunner.stopped s = true ->
      neo4jrunner.FailFast opts = true
      /\ exists j r, (j, r) ∈ neo4jrunner.executed s /\ neo4jrunner.Err r <> None)
  /\ (forall w, neo4jrunner.workers s !! w = Some (neo4jrunner.Recorded true) ->
        exists j r, (j, r) ∈ neo4jrunner.executed s /\ neo4jrunner.Err r <> None)
  /\ (neo4jrunner.jobsClosed s = true ->
      neo4jrunner.stopped s = true \/ neo4jrunner.pending s = [])
  /\ (forall w, neo4jrunner.workers s !! w = Some neo4jrunner.Exited ->
        neo4jrunner.stopped s = true \/ neo4jrunner.jobsClosed s = true)
  /\ (exists sent, jobs = sent ++ neo4jrunner.pending s)
  /\ Forall (fun r => neo4jrunner.Skipped r = false /\ neo4jrunner.SkipWhy r = ""%string)
       (neo4jrunner.out s).

(** ** More of package [neo4jrunner]: types.go *)

Module resultset.

(** The loop of [ColumnIndex], the columns from index [i] on being [cols]:
    a later column of the same name overwrites the entry. *)
Fixpoint columnIndexFrom (i : nat) (cols : list string) (m : gmap string nat)
  : gmap string nat :=
  match cols with
  | [] => m
  | c :: cols' => columnIndexFrom (S i) cols' (<[c := i]> m)
  end.

Definition ColumnIndex (rs : neo4jrunner.ResultSet) : gmap string nat :=
  columnIndexFrom O (neo4jrunner.Columns rs) ∅.

(** [cols] after lines 40-42 have run on each of [recs]: the keys of the
    first record that has any. *)
Fixpoint colsAfter (cols : list string) (recs : list neo4jrunner.Record')
  : list string :=
  match recs with
  | [] => cols
  | rec :: recs' =>
      colsAfter (match cols with [] => neo4jrunner.Keys rec | _ => cols end) recs'
  end.

End resultset.

(** ** More of package [schema] *)

Module presence.

Record Summary : Type := mkSummary {
  Labels : list string;
  Rels : list string
}.

(** One of the two loops of [PresenceFromSummary]. *)
Fixpoint addLower (names : list string) (m : gset string) : gset string :=
  match names with
  | [] => m
  | l :: names' => addLower names' ({[ strings.ToLower l ]} ∪ m)
  end.

Definition PresenceFromSummary (s : Summary) : schema.Presence :=
  schema.mkPresence (addLower (Labels s) ∅) (addLower (Rels s) ∅).

End presence.

(** Every match of [re] anchored at some offset of the text, [pos] being the
    offset of the head of [l]: what a scan that skipped nothing would
    find. *)
Fixpoint matchesFrom (re : schema.regexp) (pos : nat) (l : list ascii)
  : list (nat * string) :=
  match l with
  | [] => []
  | _ :: t =>
      match re l with
      | Some (_, g) => (pos, g) :: matchesFrom re (S pos) t
      | None => matchesFrom re (S pos) t
      end
  end.

(** No match of [re] starts inside a match of [re]. *)
Definition selfBlank (re : schema.regexp) : Prop :=
  forall c t len g, re (c :: t) = Some (len, g) ->
    forall i, (i < Nat.pred len)%nat -> re (drop i t) = None.

(** ** More of package [main] *)

Module cli.

(** The zero value [queries.Query{}]. *)
Definition zeroQuery : queries.Query := queries.mkQuery "" "" "" "" [] "" "" "".

Fixpoint findQueryByID (in_ : list queries.Query) (id : string)
  : queries.Query * bool :=
  match in_ with
  | [] => (zeroQuery, false)
  | q :: in' => if String.eqb (queries.ID q) id then (q, true) else findQueryByID in' id
  end.

Definition firstNonEmpty (a b : string) : string :=
  if negb (String.eqb (strings.TrimSpace a) "") then a else b.

End cli.

(** ** More of package [queries] *)

Module catalog.

(** [strings.EqualFold], on the ASCII range. *)
Definition EqualFold (a b : string) : bool :=
  String.eqb (strings.ToLower a) (strings.ToLower b).

(** The map [idx] of [Order]: [Some r] when the ID is a key. *)
Definition idx (id : string) : option Z :=
  if String.eqb id "ad-all-users-samaccountname" then Some 1
  else if String.eqb id "ad-all-computers-fqdn" then Some 2
  else if String.eqb id "ad-domain-admins" then Some 3
  else if String.eqb id "ad-domain-controllers" then Some 4
  else None.

Definition catRank (cat : string) : Z :=
  let c := strings.ToLower cat in
  if String.eqb c "ad" then 10
  else if String.eqb c "entraid" then 20
  else if String.eqb c "info" then 30
  else 99.

(** The comparison that [Order] hands to [sort.SliceStable]. *)
Definition less (iq jq : queries.Query) : bool :=
  let i := idx (queries.ID iq) in
  let j := idx (queries.ID jq) in
  match i, j with
  | None, None =>
      let ci := catRank (queries.Category iq) in
      let cj := catRank (queries.Category jq) in
      if negb (ci =? cj) then ci <? cj else false
  | None, Some _ => false
  | Some _, None => true
  | Some ii, Some jj => ii <? jj
  end.

(** [sort.SliceStable], by its contract for a [less] that is a strict weak
    order: the elements sorted by [less], those that [less] does not order
    keeping the order they had.  [insertStable x l] puts [x], which stood
    before every element of [l], in front of the first element that is not
    less than it. *)
Fixpoint insertStable {A : Type} (less : A -> A -> bool) (x : A) (l : list A) : list A :=
  match l with
  | [] => [x]
  | y :: l' => if less y x then y :: insertStable less x l' else x :: y :: l'
  end.

Definition SliceStable {A : Type} (less : A -> A -> bool) (l : list A) : list A :=
  foldr (insertStable less) [] l.

Definition Order (in_ : list queries.Query) : list queries.Query :=
  SliceStable less in_.



End catalog.

(** ** More of package [report]: sheet names *)

Module sheet.

(** The replacer of [safeSheetName], byte by byte: every old string is one
    byte long, so the replacer maps each byte on its own. *)
Definition replaceByte (c : ascii) : list ascii :=
  if Ascii.eqb c ":" then ["-"%char]
  else if Ascii.eqb c "\" then ["-"%char]
  else if Ascii.eqb c "/" then ["-"%char]
  else if Ascii.eqb c "?" then []
  else if Ascii.eqb c "*" then []
  else if Ascii.eqb c "[" then ["("%char]
  else if Ascii.eqb c "]" then [")"%char]
  else [c].

(** [safeSheetName], [strings.TrimSpace] being the function [TrimSpace]:
    after the trim the code works on bytes, whatever the text. *)
Definition safeSheetNameWith (TrimSpace : string -> string) (s : string) : string :=
  let s := TrimSpace s in
  let s := if String.eqb s "" then "Sheet"%string else s in
  let l := flat_map replaceByte (list_ascii_of_string s) in
  string_of_list_ascii (if (31 <? length l)%nat then take 31 l else l).

(** [safeSheetName] on ASCII text. *)
Definition safeSheetName (s : string) : string :=
  safeSheetNameWith strings.TrimSpace s.

(** The bytes a sheet name must not hold. *)
Definition forbidden (c : ascii) : bool :=
  Ascii.eqb c ":" || Ascii.eqb c "\" || Ascii.eqb c "/" || Ascii.eqb c "?"
  || Ascii.eqb c "*" || Ascii.eqb c "[" || Ascii.eqb c "]".

End sheet.

(** ** More of package [main]: schema.go *)

Module schemacmd.

(** The test of [neo4jQuoteIdent] on a rune; a rune beyond ASCII fails it,
    as each byte of its encoding does here. *)
Definition plain (r : ascii) : bool :=
  ((97 <=? N_of_ascii r) && (N_of_ascii r <=? 122)
   || (65 <=? N_of_ascii r) && (N_of_ascii r <=? 90)
   || (48 <=? N_of_ascii r) && (N_of_ascii r <=? 57)
   || (N_of_ascii r =? 95))%N.

Definition neo4jQuoteIdent (s : string) : string :=
  let out := string_of_list_ascii (List.filter plain (list_ascii_of_string s)) in
  if String.eqb out "" then "X"%string else out.

End schemacmd.

(** ** More of package [queries]: column keys *)

Module keys.

(** [strings.ReplaceAll(s, old, new)] for [old] and [new] of one byte. *)
Fixpoint ReplaceAll (s : string) (old new : ascii) : string :=
  match s with
  | EmptyString => EmptyString
  | String c t => String (if Ascii.eqb c old then new else c) (ReplaceAll t old new)
  end.

(** The cases of the [switch] of [HeaderToKey], in its order. *)
Definition cases : list (list string * string) :=
  [(["hostname"; "computer"], "computer");
   (["operating system"; "os"], "os");
   (["user"; "username"], "user");
   (["principal"], "principal");
   (["type"], "type");
   (["description"], "description");
   (["group names"; "group_names"; "group"], "group");
   (["groupname"], "groupname");
   (["password set"; "password_set"], "pwdlastset");
   (["service acct?"; "service_acct?"; "service acct"; "service_acct"], "service_acct");
   (["samaccountname"], "samaccountname");
   (["fqdn"], "fqdn")]%string.

(** A [switch] on a string: the first case that lists [h], else
    [default]. *)
Fixpoint switch (h : string) (cs : list (list string * string)) (default : string)
  : string :=
  match cs with
  | [] => default
  | (names, key) :: cs' =>
      if existsb (String.eqb h) names then key else switch h cs' default
  end.

Definition HeaderToKey (h : string) : string :=
  let h := strings.ToLower (strings.TrimSpace h) in
  switch h cases (ReplaceAll h " " "_").

End keys.

(** ** Package [format] *)

Module formatter.

(** [strings.Fields] on ASCII text, where the white space is that of
    [strings.isSpace]: [cur] holds, last byte first, the field being
    read. *)
Fixpoint fieldsFrom (cur : list ascii) (l : list ascii) : list (list ascii) :=
  match l with
  | [] => match cur with [] => [] | _ => [rev cur] end
  | c :: t =>
      if strings.isSpace c then
        match cur with
        | [] => fieldsFrom [] t
        | _ => rev cur :: fieldsFrom [] t
        end
      else fieldsFrom (c :: cur) t
  end.

Definition Fields (s : string) : list string :=
  map string_of_list_ascii (fieldsFrom [] (list_ascii_of_string s)).

(** [strings.Join(elems, sep)]. *)
Fixpoint joinList (elems : list (list ascii)) (sep : list ascii) : list ascii :=
  match elems with
  | [] => []
  | [e] => e
  | e :: es => e ++ sep ++ joinList es sep
  end.

Definition Join (elems : list string) (sep : string) : string :=
  string_of_list_ascii
    (joinList (map list_ascii_of_string elems) (list_ascii_of_string sep)).

Definition OneLine (s : string) : string :=
  let s := keys.ReplaceAll s "010" " " in
  let s := keys.ReplaceAll s "013" " " in
  Join (Fields s) " ".

End formatter.

(** A word: not empty, no white space in it. *)
Definition word (w : list ascii) : Prop :=
  w <> [] /\ Forall (fun c => strings.isSpace c = false) w.


(** ** More of package [report]: statuses and the CSV table *)

Module reporting.

(** The status that [writeSummarySheet] gives an entry (lines 22-35). *)
Definition summaryStatus (o : report.Output) : string :=
  if report.Skipped o then "skipped"
  else if negb (String.eqb (report.Error o) "") then "error"
  else if (length (neo4jrunner.Rows (report.Result o)) =? 0)%nat then "empty"
  else "ok".

(** The four counters of [writeSummarySheet]. *)
Record totals : Type := mkTotals {
  ok : nat;
  errc : nat;
  skipped : nat;
  empty : nat
}.

(** One turn of the loop of lines 21-46, on the counters. *)
Definition count (t : totals) (o : report.Output) : totals :=
  if report.Skipped o then mkTotals (ok t) (errc t) (S (skipped t)) (empty t)
  else if negb (String.eqb (report.Error o) "") then
    mkTotals (ok t) (S (errc t)) (skipped t) (empty t)
  else if (length (neo4jrunner.Rows (report.Result o)) =? 0)%nat then
    mkTotals (ok t) (errc t) (skipped t) (S (empty t))
  else mkTotals (S (ok t)) (errc t) (skipped t) (empty t).

Definition tally (outs : list report.Output) : totals :=
  foldl count (mkTotals O O O O) outs.

(** The status that [writeCSV] gives an entry (lines 407-413). *)
Definition csvStatus (o : report.Output) : string :=
  let status := "ok"%string in
  let status := if report.Skipped o then "skipped"%string else status in
  if negb (String.eqb (report.Error o) "") then "error"%string else status.

(** [sort.Strings], by its contract: the strings in the order of
    [String.leb], which compares byte by byte. *)
Definition leString (a b : string) : Prop := Is_true (String.leb a b).

Definition sortStrings (l : list string) : list string := merge_sort leString l.

(** Lines 389-399: the column names of all the entries, each once,
    sorted. *)
Definition keysOf (outs : list report.Output) : list string :=
  sortStrings
    (elements (list_to_set (flat_map (fun o => neo4jrunner.Columns (report.Result o)) outs)
               : gset string)).

Section Writer.

(** [fmtter.Value]. *)
Variable Value : string -> neo4jrunner.any -> string.

(** Lines 426-433: the cells of one row under the columns [keys]. *)
Definition cells (keys : list string) (colIndex : gmap string nat)
    (row : list neo4jrunner.any) : list string :=
  map (fun k =>
         match colIndex !! k with
         | None => ""%string
         | Some idx =>
             match row !! idx with
             | None => ""%string   (* [idx >= len(row)] *)
             | Some v => Value k v
             end
         end) keys.

(** Lines 406-435: the records written for one entry. *)
Definition recordsOf (keys : list string) (o : report.Output) : list (list string) :=
  let fixed := [queries.ID (report.Query o); queries.Title (report.Query o);
                queries.Category (report.Query o); csvStatus o] in
  match neo4jrunner.Rows (report.Result o) with
  | [] => [fixed ++ map (fun _ => ""%string) keys]
  | rows => map (fun row => fixed ++ cells keys (resultset.ColumnIndex (report.Result o)) row)
              rows
  end.

(** The records that [writeCSV] hands to the [csv.Writer], the header
    first. *)
Definition writeCSV (outs : list report.Output) : list (list string) :=
  (["query_id"; "query_title"; "category"; "status"]%string ++ keysOf outs)
  :: flat_map (recordsOf (keysOf outs)) outs.

End Writer.

End reporting.

(** ** The earlier runner, [runner.go] at the top of the tree *)

Module legacy.






End legacy.


(* ===================================================================== *)
(** * Part II.  Properties                                                *)
(* ===================================================================== *)

Example scan_labels :
  schema.FindAllStringSubmatchIndex schema.reLabel "MATCH (u:User)-[:MemberOf]->(g:Group) RETURN u"
  = [(8%nat, "User"); (16%nat, "MemberOf"); (30%nat, "Group")]%string.
Proof. vm_compute. reflexivity. Qed.

Example scan_rels :
  schema.FindAllStringSubmatchIndex schema.reRel "MATCH (u:User)-[:MemberOf]->(g:Group) RETURN u"
  = [(15%nat, "MemberOf")]%string.
Proof. vm_compute. reflexivity. Qed.

Example scan_adjacent :
  schema.FindAllStringSubmatch schema.reLabel "::A:B_1 :: : x:y[:[:Z"
  = ["A"; "B_1"; "y"; "Z"]%string.
Proof. vm_compute. reflexivity. Qed.

(** ** Byte strings *)

Lemma prefix_occurs (a s : string) :
  String.prefix a s = true <-> exists post, s = (a ++ post)%string.
Proof.
  revert s. induction a as [|c a IH]; intros s; simpl.
  - split; [intros _; exists s; reflexivity | intros _; destruct s; reflexivity].
  - destruct s as [|d s]; simpl.
    + split; [discriminate | intros [post H]; discriminate].
    + destruct (Ascii.ascii_dec c d) as [->|Hne].
      * rewrite IH. split; intros [post H]; exists post;
          [rewrite H; reflexivity | injection H as H; exact H].
      * split; [discriminate | intros [post H]; injection H as H1 H2; congruence].
Qed.

Lemma Contains_occurs (s sub : string) :
  strings.Contains s sub = true <-> occursIn sub s.
Proof.
  unfold occursIn. induction s as [|c s IH]; cbn [strings.Contains].
  - rewrite orb_false_r, prefix_occurs. split.
    + intros [post H]. exists ""%string, post. exact H.
    + intros [pre [post H]]. destruct pre; simpl in H; [eauto | discriminate].
  - rewrite orb_true_iff, prefix_occurs, IH. split.
    + intros [[post H] | [pre [post H]]].
      * exists ""%string, post. exact H.
      * exists (String c pre), post. rewrite H. reflexivity.
    + intros [pre [post H]]. destruct pre as [|d pre]; simpl in H.
      * left. eauto.
      * right. exists pre, post. injection H as _ H. exact H.
Qed.

Lemma isASCII_Forall (s : string) :
  strings.isASCII s = true
  <-> Forall (fun c => (N_of_ascii c < 128)%N) (list_ascii_of_string s).
Proof.
  unfold strings.isASCII. rewrite forallb_forall, Forall_forall.
  split; intros H c Hc.
  - apply N.ltb_lt, H, list_elem_of_In, Hc.
  - apply N.ltb_lt, H, list_elem_of_In, Hc.
Qed.

Lemma toLowerByte_ascii (c : ascii) :
  (N_of_ascii c < 128)%N -> (N_of_ascii (strings.toLowerByte c) < 128)%N.
Proof.
  destruct c as [[] [] [] [] [] [] [] []]; vm_compute; intros H; first [exact H | reflexivity].
Qed.

Lemma ToLower_isASCII (s : string) :
  strings.isASCII s = true -> strings.isASCII (strings.ToLower s) = true.
Proof.
  unfold strings.isASCII. induction s as [|c s IH]; [reflexivity |].
  cbn [list_ascii_of_string strings.ToLower forallb]. rewrite !andb_true_iff.
  intros [Hc Hs]. split; [| exact (IH Hs)].
  apply N.ltb_lt, toLowerByte_ascii, N.ltb_lt, Hc.
Qed.

Lemma trimLeft_Forall (P : ascii -> Prop) (l : list ascii) :
  Forall P l -> Forall P (strings.trimLeft l).
Proof.
  induction 1 as [|c l Hc Hl IH]; cbn [strings.trimLeft]; [constructor |].
  destruct (strings.isSpace c); [exact IH | constructor; assumption].
Qed.

Lemma TrimSpace_isASCII (s : string) :
  strings.isASCII s = true -> strings.isASCII (strings.TrimSpace s) = true.
Proof.
  rewrite !isASCII_Forall. intros H. unfold strings.TrimSpace.
  rewrite list_ascii_of_string_of_list_ascii.
  apply Forall_rev, trimLeft_Forall, Forall_rev, trimLeft_Forall, H.
Qed.

(** ** [looksTransient] *)

Lemma looksTransient_unclassified (msg : string) :
  neo4jrunner.looksTransient (neo4jrunner.mkError None msg) = true
  <-> exists sub, In sub neo4jrunner.transientSubstrings /\ containsFold msg sub.
Proof.
  unfold neo4jrunner.looksTransient, containsFold. simpl neo4jrunner.neo4jClassification.
  rewrite existsb_exists. simpl neo4jrunner.Error.
  split; intros [sub [Hin H]]; exists sub; (split; [exact Hin |]);
    apply Contains_occurs; exact H.
Qed.

(** C3, as the code has it: an error is transient exactly when the
    backend's classification is "TransientError" or, for an error that
    carries no classification, when its message contains, case ignored, one
    of "connection refused", "i/o timeout", "temporary", "EOF",
    "broken pipe", "reset by peer", "ServiceUnavailable".  In particular
    an unclassified error whose message contains "i/o timeout" or
    "reset by peer" (case ignored) is transient.  The message of an error
    without classification is taken to be ASCII text; a classified error is
    covered whatever its message. *)
Theorem looksTransient_characterised (err : neo4jrunner.error) :
  (neo4jrunner.neo4jClassification err = None ->
   strings.isASCII (neo4jrunner.Error err) = true) ->
  (neo4jrunner.looksTransient err = true <->
     neo4jrunner.neo4jClassification err = Some "TransientError"%string
     \/ (neo4jrunner.neo4jClassification err = None
         /\ exists sub,
              In sub ["connection refused"; "i/o timeout"; "temporary"; "EOF";
                      "broken pipe"; "reset by peer"; "ServiceUnavailable"]%string
              /\ containsFold (neo4jrunner.Error err) sub))
  /\ (neo4jrunner.neo4jClassification err = None ->
      containsFold (neo4jrunner.Error err) "i/o timeout"
      \/ containsFold (neo4jrunner.Error err) "reset by peer" ->
      neo4jrunner.looksTransient err = true).
Proof.
  intros _. destruct err as [[c|] msg]; simpl.
  - split.
    + unfold neo4jrunner.looksTransient; simpl.
      destruct (String.eqb_spec c "TransientError") as [->|Hne].
      * split; [intros _; left; reflexivity | reflexivity].
      * split; [discriminate | intros [H | [H _]]; congruence].
    + discriminate.
  - split.
    + rewrite looksTransient_unclassified. split.
      * intros H. right. split; [reflexivity | exact H].
      * intros [H | [_ H]]; [discriminate | exact H].
    + intros _ H. apply looksTransient_unclassified.
      destruct H as [H | H];
        [exists "i/o timeout"%string | exists "reset by peer"%string];
        (split; [simpl; tauto | exact H]).
Qed.

Lemma looksTransient_characterised_witness :
  neo4jrunner.looksTransient
    (neo4jrunner.mkError None "read tcp 10.0.0.5:7687: I/O Timeout") = true.
Proof.
  apply (proj2 (looksTransient_characterised
                  (neo4jrunner.mkError None "read tcp 10.0.0.5:7687: I/O Timeout")
                  (fun _ => eq_refl))).
  - reflexivity.
  - left. exists "read tcp 10.0.0.5:7687: "%string, ""%string. reflexivity.
Defined.

(** C3 fails as worded: an unclassified error whose message is "timeout"
    is transient by the specification's table and not by the code's. *)
Lemma looksTransient_timeout_not_transient :
  spec.transient (neo4jrunner.mkError None "timeout") = true
  /\ containsFold "timeout" "timeout"
  /\ neo4jrunner.looksTransient (neo4jrunner.mkError None "timeout") = false.
Proof.
  split; [reflexivity | split; [| reflexivity]].
  exists ""%string, ""%string. reflexivity.
Qed.

(** ** [execWithRetries] *)

Section Retry.

Import neo4jrunner.

Variable w : World.

Lemma retryLoop_retried (k : nat) :
  forall (n : nat) (a : Z) (lastErr : option error),
    (k <= n)%nat ->
    (forall i, 0 <= i < Z.of_nat k -> failsTransiently w (a + i) /\ ctxAlive w (a + i)) ->
    retryLoop w n a lastErr =
      (let '(rs, err, tr) :=
         retryLoop w (n - k) (a + Z.of_nat k) (lastErrAfter w a k lastErr) in
       (rs, err, retried a k ++ tr)).
Proof.
  induction k as [|k IH]; intros n a lastErr Hle Hall.
  - simpl. rewrite Nat.sub_0_r, Z.add_0_r.
    destruct (retryLoop w n a lastErr) as [[rs err] tr]. reflexivity.
  - destruct n as [|n]; [lia |].
    destruct (Hall 0 ltac:(lia)) as [[e [He Ht]] [Hc Hd]].
    rewrite Z.add_0_r in He, Hc, Hd.
    cbn [retryLoop]. destruct (exec w a) as [r oe] eqn:Hexec.
    simpl in He. subst oe. rewrite Hc, Ht, Hd. cbn [negb].
    rewrite (IH n (a + 1) (Some e)).
    + replace (a + 1 + Z.of_nat k) with (a + Z.of_nat (S k)) by lia.
      replace (lastErrAfter w (a + 1) k (Some e)) with (lastErrAfter w a (S k) lastErr).
      * cbn [Nat.sub].
        destruct (retryLoop w (n - k) (a + Z.of_nat (S k)) (lastErrAfter w a (S k) lastErr))
          as [[rs err] tr].
        reflexivity.
      * destruct k as [|k]; simpl.
        -- rewrite Z.add_0_r, Hexec. reflexivity.
        -- f_equal. f_equal. lia.
    + lia.
    + intros i Hi. replace (a + 1 + i) with (a + (i + 1)) by lia. apply Hall. lia.
Qed.

Lemma retryLoop_attempts_le (n : nat) :
  forall (a : Z) (lastErr : option error),
    (attempts (snd (retryLoop w n a lastErr)) <= n)%nat.
Proof.
  induction n as [|n IH]; intros a lastErr; cbn [retryLoop].
  - simpl. lia.
  - destruct (exec w a) as [r [e|]]; [| simpl; lia].
    destruct (ctxErr w a); [simpl; lia |].
    destruct (looksTransient e); cbn [negb]; [| simpl; lia].
    destruct (ctxDone w a); [simpl; lia |].
    specialize (IH (a + 1) (Some e)).
    destruct (retryLoop w n (a + 1) (Some e)) as [[rs err] tr].
    simpl in *. lia.
Qed.

Lemma attempts_retried (a : Z) (k : nat) (tr : list event) :
  attempts (retried a k ++ tr) = (k + attempts tr)%nat.
Proof.
  revert a. induction k as [|k IH]; intros a; simpl; [reflexivity |].
  rewrite IH. reflexivity.
Qed.

Lemma retryLoop_starts (n : nat) (a : Z) (lastErr : option error) :
  exists tr, snd (retryLoop w (S n) a lastErr) = EvExec a :: tr.
Proof.
  cbn [retryLoop].
  destruct (exec w a) as [r [e|]]; [| simpl; eauto].
  destruct (ctxErr w a); [simpl; eauto |].
  destruct (looksTransient e); cbn [negb]; [| simpl; eauto].
  destruct (ctxDone w a); [simpl; eauto |].
  destruct (retryLoop w n (a + 1) (Some e)) as [[rs err] tr].
  simpl. eauto.
Qed.

Lemma backoff_linear (a : Z) :
  0 <= a < 46116860184 -> backoff a = (a + 1) * (200 * Millisecond).
Proof.
  intros Ha. unfold backoff, wrap64, Millisecond.
  rewrite (Z.mod_small (a + 1 + 2 ^ 63)) by lia.
  rewrite (Z.mod_small (200 * (a + 1 + 2 ^ 63 - 2 ^ 63) + 2 ^ 63)) by lia.
  rewrite Z.mod_small by lia. lia.
Qed.

End Retry.

(** C2, with the proviso the code needs: for [retries >= 0], (1) when the
    attempts 0..k-1 (k <= retries) fail with transient errors, the context
    being neither done after any of them nor firing during the backoffs,
    and attempt k succeeds, [execWithRetries] returns that result set with a
    nil error after k+1 executions; (2) whatever happens, there are at most
    retries+1 executions; (3) when all retries+1 attempts fail transiently
    under the same proviso, the error of the last attempt is returned. *)
Theorem execWithRetries_retry_bound (w : neo4jrunner.World) (retries : Z) :
  0 <= retries ->
  (forall k rs,
      0 <= k <= retries ->
      (forall a, 0 <= a < k -> failsTransiently w a /\ ctxAlive w a) ->
      neo4jrunner.exec w k = (rs, None) ->
      exists tr,
        neo4jrunner.execWithRetries w retries = (rs, None, tr)
        /\ neo4jrunner.attempts tr = Z.to_nat (k + 1))
  /\ (neo4jrunner.attempts (snd (neo4jrunner.execWithRetries w retries))
      <= Z.to_nat (retries + 1))%nat
  /\ ((forall a, 0 <= a <= retries -> failsTransiently w a /\ ctxAlive w a) ->
      exists err tr,
        snd (neo4jrunner.exec w retries) = Some err
        /\ neo4jrunner.execWithRetries w retries
           = (neo4jrunner.emptyResultSet, Some err, tr)
        /\ neo4jrunner.attempts tr = Z.to_nat (retries + 1)).
Proof.
  intros Hr. unfold neo4jrunner.execWithRetries. repeat split.
  - intros k rs Hk Hall Hexec.
    rewrite (retryLoop_retried w (Z.to_nat k)); [| lia |].
    + replace (Z.to_nat (retries + 1) - Z.to_nat k)%nat
        with (S (Z.to_nat (retries - k))) by lia.
      rewrite Z2Nat.id by lia. cbn [neo4jrunner.retryLoop].
      rewrite Z.add_0_l, Hexec.
      eexists. split; [reflexivity |].
      rewrite attempts_retried. simpl. lia.
    + intros i Hi. rewrite Z.add_0_l. apply Hall. lia.
  - apply retryLoop_attempts_le.
  - intros Hall.
    destruct (Hall retries ltac:(lia)) as [[err [Herr _]] _].
    exists err. eexists. split; [exact Herr |].
    rewrite (retryLoop_retried w (Z.to_nat (retries + 1))); [| lia |].
    + rewrite Nat.sub_diag. cbn [neo4jrunner.retryLoop].
      replace (Z.to_nat (retries + 1)) with (S (Z.to_nat retries)) by lia.
      cbn [lastErrAfter]. rewrite Z.add_0_l, Z2Nat.id, Herr by lia.
      split; [reflexivity |].
      rewrite attempts_retried. simpl. lia.
    + intros i Hi. rewrite Z.add_0_l. apply Hall. lia.
Qed.

Lemma execWithRetries_retry_bound_witness :
  exists tr,
    neo4jrunner.execWithRetries sample.worldFlaky 2 = (sample.rsOne, None, tr)
    /\ neo4jrunner.attempts tr = 2%nat.
Proof.
  apply (proj1 (execWithRetries_retry_bound sample.worldFlaky 2 ltac:(lia)) 1 sample.rsOne).
  - lia.
  - intros a Ha. assert (a = 0) as -> by lia. split.
    + exists sample.errTimeout. split; reflexivity.
    + split; reflexivity.
  - reflexivity.
Defined.

(** C2 fails as worded: one transient failure, then a success within the
    retry budget, and yet the context's error is what comes back, the second
    attempt never made, because the deadline had passed when the first
    attempt failed. *)
Lemma execWithRetries_expired_context :
  (snd (neo4jrunner.exec sample.worldExpired 0) = Some sample.errTimeout
   /\ neo4jrunner.looksTransient sample.errTimeout = true)
  /\ neo4jrunner.exec sample.worldExpired 1 = (sample.rsOne, None)
  /\ neo4jrunner.execWithRetries sample.worldExpired 1
     = (neo4jrunner.emptyResultSet, Some sample.errDeadline, [neo4jrunner.EvExec 0]).
Proof. repeat split. Qed.

(** C7: when the first attempt fails with an error that is not transient
    and the context is not done, [execWithRetries] returns that error after
    this one execution, whatever [retries >= 0]: no retry, no backoff. *)
Theorem execWithRetries_permanent (w : neo4jrunner.World) (retries : Z)
    (rs : neo4jrunner.ResultSet) (err : neo4jrunner.error) :
  0 <= retries ->
  neo4jrunner.exec w 0 = (rs, Some err) ->
  neo4jrunner.looksTransient err = false ->
  neo4jrunner.ctxErr w 0 = None ->
  neo4jrunner.execWithRetries w retries
  = (neo4jrunner.emptyResultSet, Some err, [neo4jrunner.EvExec 0]).
Proof.
  intros Hr Hexec Hperm Hctx. unfold neo4jrunner.execWithRetries.
  replace (Z.to_nat (retries + 1)) with (S (Z.to_nat retries)) by lia.
  cbn [neo4jrunner.retryLoop]. rewrite Hexec, Hctx, Hperm. reflexivity.
Qed.

Lemma execWithRetries_permanent_witness :
  neo4jrunner.execWithRetries sample.worldPermanent 3
  = (neo4jrunner.emptyResultSet, Some sample.errSyntax, [neo4jrunner.EvExec 0]).
Proof.
  apply (execWithRetries_permanent sample.worldPermanent 3
           neo4jrunner.emptyResultSet sample.errSyntax).
  - lia.
  - reflexivity.
  - reflexivity.
  - reflexivity.
Defined.

(** C8: let attempt number n (1 <= n <= retries+1, and n <= 46116860184 so
    that 200ms x n fits the 64-bit nanosecond count) fail with a transient
    error, the context not done, the earlier attempts having been retried.
    The backoff that follows lasts 200ms x n.  If the context does not fire
    during it, the loop goes on after the full sleep, with attempt n+1 when
    n <= retries.  If the context fires, [execWithRetries] returns
    [ctx.Err()] at once: no further execution, and neither the backend
    error nor the rest of the sleep. *)
Theorem execWithRetries_backoff (w : neo4jrunner.World) (retries n : Z) :
  1 <= n <= retries + 1 ->
  n <= 46116860184 ->
  (forall a, 0 <= a < n - 1 -> failsTransiently w a /\ ctxAlive w a) ->
  failsTransiently w (n - 1) ->
  neo4jrunner.ctxErr w (n - 1) = None ->
  neo4jrunner.backoff (n - 1) = n * (200 * neo4jrunner.Millisecond)
  /\ (neo4jrunner.ctxDone w (n - 1) = None ->
      exists rs err tr,
        neo4jrunner.execWithRetries w retries
        = (rs, err,
           retried 0 (Z.to_nat (n - 1))
           ++ neo4jrunner.EvExec (n - 1)
              :: neo4jrunner.EvSleep (n * (200 * neo4jrunner.Millisecond)) :: tr)
        /\ (n <= retries -> exists tr', tr = neo4jrunner.EvExec n :: tr'))
  /\ (forall cerr,
        neo4jrunner.ctxDone w (n - 1) = Some cerr ->
        neo4jrunner.execWithRetries w retries
        = (neo4jrunner.emptyResultSet, Some cerr,
           retried 0 (Z.to_nat (n - 1))
           ++ [neo4jrunner.EvExec (n - 1);
               neo4jrunner.EvInterrupted (n * (200 * neo4jrunner.Millisecond))])).
Proof.
  intros Hn Hbound Hprev [e [He Ht]] Hctx.
  assert (Hb : neo4jrunner.backoff (n - 1) = n * (200 * neo4jrunner.Millisecond)).
  { rewrite backoff_linear by lia. f_equal. lia. }
  assert (Hloop : forall lastErr,
             neo4jrunner.retryLoop w (Z.to_nat (retries + 1)) 0 lastErr =
             (let '(rs, err, tr) :=
                neo4jrunner.retryLoop w (S (Z.to_nat (retries + 1 - n))) (n - 1)
                  (lastErrAfter w 0 (Z.to_nat (n - 1)) lastErr) in
              (rs, err, retried 0 (Z.to_nat (n - 1)) ++ tr))).
  { intros lastErr.
    rewrite (retryLoop_retried w (Z.to_nat (n - 1))); [| lia |].
    - replace (Z.to_nat (retries + 1) - Z.to_nat (n - 1))%nat
        with (S (Z.to_nat (retries + 1 - n))) by lia.
      rewrite Z2Nat.id, Z.add_0_l by lia. reflexivity.
    - intros i Hi. rewrite Z.add_0_l. apply Hprev. lia. }
  destruct (neo4jrunner.exec w (n - 1)) as [r oe] eqn:Hexec. simpl in He. subst oe.
  split; [exact Hb | split].
  - intros Hd. unfold neo4jrunner.execWithRetries. rewrite Hloop.
    cbn [neo4jrunner.retryLoop]. rewrite Hexec, Hctx, Ht, Hd, Hb. cbn [negb].
    replace (n - 1 + 1) with n by lia.
    destruct (neo4jrunner.retryLoop w (Z.to_nat (retries + 1 - n)) n (Some e))
      as [[rs err] tr] eqn:Hrest.
    exists rs, err, tr. split; [reflexivity |].
    intros Hle.
    replace (Z.to_nat (retries + 1 - n)) with (S (Z.to_nat (retries - n))) in Hrest by lia.
    destruct (retryLoop_starts w (Z.to_nat (retries - n)) n (Some e)) as [tr' Htr'].
    rewrite Hrest in Htr'. simpl in Htr'. eauto.
  - intros cerr Hd. unfold neo4jrunner.execWithRetries. rewrite Hloop.
    cbn [neo4jrunner.retryLoop]. rewrite Hexec, Hctx, Ht, Hd, Hb. reflexivity.
Qed.

Lemma execWithRetries_backoff_witness :
  neo4jrunner.execWithRetries sample.worldInterrupted 5
  = (neo4jrunner.emptyResultSet, Some sample.errDeadline,
     [neo4jrunner.EvExec 0; neo4jrunner.EvSleep 200000000;
      neo4jrunner.EvExec 1; neo4jrunner.EvInterrupted 400000000]).
Proof.
  refine (proj2 (proj2 (execWithRetries_backoff sample.worldInterrupted 5 2 _ _ _ _ _))
            sample.errDeadline _).
  - lia.
  - lia.
  - intros a Ha. assert (a = 0) as -> by lia. split.
    + exists sample.errTimeout. split; reflexivity.
    + split; reflexivity.
  - exists sample.errTimeout. split; reflexivity.
  - reflexivity.
  - reflexivity.
Defined.

(** ** [schema.CanRunCypher] *)

(** Membership in a concrete set, decided by evaluation. *)
Ltac decide_by_computation :=
  unfold resolved; apply (bool_decide_unpack _); vm_compute; exact I.

Lemma ToLower_empty (m : string) : strings.ToLower m = ""%string -> m = ""%string.
Proof. destruct m; [reflexivity | discriminate]. Qed.

Lemma reLabel_group (l : list ascii) (len : nat) (g : string) :
  schema.reLabel l = Some (len, g) -> g <> ""%string.
Proof.
  unfold schema.reLabel. destruct l as [|c t]; [discriminate |].
  destruct (Ascii.ascii_dec c ":") as [->|Hne].
  - destruct (schema.identRun t) eqn:Hrun; [discriminate |].
    intros [= _ <-]. discriminate.
  - destruct c as [[] [] [] [] [] [] [] []]; try discriminate. congruence.
Qed.

Lemma reRel_group (l : list ascii) (len : nat) (g : string) :
  schema.reRel l = Some (len, g) -> g <> ""%string.
Proof.
  unfold schema.reRel. destruct l as [|c [|d t]]; try discriminate.
  - destruct c as [[] [] [] [] [] [] [] []]; discriminate.
  - destruct (Ascii.ascii_dec c "[") as [->|Hc]; [destruct (Ascii.ascii_dec d ":") as [->|Hd] |].
    + destruct (schema.identRun t) eqn:Hrun; [discriminate |].
      intros [= _ <-]. discriminate.
    + destruct d as [[] [] [] [] [] [] [] []]; try discriminate. congruence.
    + destruct c as [[] [] [] [] [] [] [] []]; try discriminate. congruence.
Qed.

Lemma findAll_groups (re : schema.regexp) :
  (forall l len g, re l = Some (len, g) -> g <> ""%string) ->
  forall l pos skip, Forall (fun m => m <> ""%string) (map snd (schema.findAll re pos skip l)).
Proof.
  intros Hre. induction l as [|c t IH]; intros pos skip; simpl; [constructor |].
  destruct skip as [|k]; [| apply IH].
  destruct (re (c :: t)) as [[len g]|] eqn:Hm; [| apply IH].
  simpl. constructor; [eapply Hre; exact Hm | apply IH].
Qed.

Lemma checkAll_resolved (known : gset string) (what : string) (ms : list string)
    (next : bool * string) :
  Forall (resolved known) ms -> schema.checkAll known what ms next = next.
Proof.
  induction 1 as [|m ms Hm _ IH]; simpl; [reflexivity |].
  destruct (String.eqb _ ""); [exact IH |].
  rewrite bool_decide_eq_true_2 by exact Hm. exact IH.
Qed.

Lemma checkAll_first (known : gset string) (what : string) (pre post : list string)
    (X : string) (next : bool * string) :
  Forall (resolved known) pre -> ~ resolved known X -> X <> ""%string ->
  schema.checkAll known what (pre ++ X :: post) next
  = (false, ("missing " ++ what ++ ": " ++ X)%string).
Proof.
  intros Hpre HX Hne. induction Hpre as [|m ms Hm _ IH]; simpl.
  - destruct (String.eqb_spec (strings.ToLower X) "") as [He|_].
    + apply ToLower_empty in He. contradiction.
    + rewrite bool_decide_eq_false_2 by exact HX. reflexivity.
  - destruct (String.eqb _ ""); [exact IH |].
    rewrite bool_decide_eq_true_2 by exact Hm. exact IH.
Qed.

Lemma first_unresolved (known : gset string) (ms : list string) :
  Exists (fun m => ~ resolved known m) ms ->
  exists pre X post,
    ms = pre ++ X :: post /\ Forall (resolved known) pre /\ ~ resolved known X.
Proof.
  induction ms as [|m ms IH]; intros HE; [inversion HE |].
  destruct (decide (strings.ToLower m ∈ known)) as [Hin|Hout].
  - destruct IH as [pre [X [post [-> [Hpre HX]]]]].
    { inversion HE; subst; [contradiction | assumption]. }
    exists (m :: pre), X, post. repeat split; [constructor |]; assumption.
  - exists [], m, ms. repeat split; [constructor | exact Hout].
Qed.

(** C6, as the code has it: the matches of the label pattern are checked
    first, in the order of the text, then those of the relationship
    pattern.  When some match of the label pattern is unresolved, the
    answer is not-runnable with "missing label: X", X the first such match;
    otherwise, when some match of the relationship pattern is unresolved,
    it is not-runnable with "missing relationship type: X", X the first
    such match; when every match resolves, it is runnable with an empty
    reason.  The presence index is only read. *)
Theorem CanRunCypher_first_missing (cypher : string) (p : schema.Presence) :
  let labels := schema.FindAllStringSubmatch schema.reLabel cypher in
  let rels := schema.FindAllStringSubmatch schema.reRel cypher in
  (Exists (fun m => ~ resolved (schema.Labels p) m) labels ->
   exists pre X post,
     labels = pre ++ X :: post
     /\ Forall (resolved (schema.Labels p)) pre
     /\ ~ resolved (schema.Labels p) X
     /\ schema.CanRunCypher cypher p = (false, ("missing label: " ++ X)%string))
  /\ (Forall (resolved (schema.Labels p)) labels ->
      Exists (fun m => ~ resolved (schema.Rels p) m) rels ->
      exists pre X post,
        rels = pre ++ X :: post
        /\ Forall (resolved (schema.Rels p)) pre
        /\ ~ resolved (schema.Rels p) X
        /\ schema.CanRunCypher cypher p
           = (false, ("missing relationship type: " ++ X)%string))
  /\ (Forall (resolved (schema.Labels p)) labels ->
      Forall (resolved (schema.Rels p)) rels ->
      schema.CanRunCypher cypher p = (true, ""%string)).
Proof.
  intros labels rels. unfold schema.CanRunCypher. fold labels rels.
  assert (Hl : Forall (fun m => m <> ""%string) labels)
    by (apply findAll_groups, reLabel_group).
  assert (Hr : Forall (fun m => m <> ""%string) rels)
    by (apply findAll_groups, reRel_group).
  repeat split.
  - intros HE. destruct (first_unresolved _ _ HE) as [pre [X [post [Heq [Hpre HX]]]]].
    exists pre, X, post. repeat split; try assumption.
    rewrite Heq. apply checkAll_first; try assumption.
    rewrite Heq in Hl. apply Forall_app in Hl as [_ Hl]. inversion Hl; assumption.
  - intros Hall HE. rewrite checkAll_resolved by exact Hall.
    destruct (first_unresolved _ _ HE) as [pre [X [post [Heq [Hpre HX]]]]].
    exists pre, X, post. repeat split; try assumption.
    rewrite Heq. apply checkAll_first; try assumption.
    rewrite Heq in Hr. apply Forall_app in Hr as [_ Hr]. inversion Hr; assumption.
  - intros Hall Hall'. rewrite !checkAll_resolved by assumption. reflexivity.
Qed.

Lemma CanRunCypher_first_missing_witness :
  exists pre X post,
    schema.FindAllStringSubmatch schema.reLabel sample.cypherRelFirst = pre ++ X :: post
    /\ Forall (resolved (schema.Labels sample.presenceSmall)) pre
    /\ ~ resolved (schema.Labels sample.presenceSmall) X
    /\ schema.CanRunCypher sample.cypherRelFirst sample.presenceSmall
       = (false, ("missing label: " ++ X)%string).
Proof.
  apply (proj1 (CanRunCypher_first_missing sample.cypherRelFirst sample.presenceSmall)).
  assert (E : schema.FindAllStringSubmatch schema.reLabel sample.cypherRelFirst
              = ["Group"; "User"]%string) by (vm_compute; reflexivity).
  rewrite E. apply Exists_cons_tl, Exists_cons_hd. decide_by_computation.
Defined.

(** C6 fails as worded: in [sample.cypherRelFirst] the first token that
    does not resolve, in the order of the text, is the relationship type
    "Group" at offset 9; the reason names the label "User" of offset 21. *)
Lemma CanRunCypher_not_in_text_order :
  schema.FindAllStringSubmatchIndex schema.reRel sample.cypherRelFirst
  = [(9%nat, "Group"%string)]
  /\ ~ resolved (schema.Rels sample.presenceSmall) "Group"
  /\ schema.FindAllStringSubmatchIndex schema.reLabel sample.cypherRelFirst
     = [(10%nat, "Group"%string); (21%nat, "User"%string)]
  /\ resolved (schema.Labels sample.presenceSmall) "Group"
  /\ ~ resolved (schema.Labels sample.presenceSmall) "User"
  /\ schema.CanRunCypher sample.cypherRelFirst sample.presenceSmall
     = (false, "missing label: User"%string).
Proof.
  repeat split; try (vm_compute; reflexivity); decide_by_computation.
Qed.

(** C4, the code at a query that names the relationship type "MemberOf"
    only as [[:MemberOf]], "memberof" being a known relationship type: the
    label pattern matches inside [[:MemberOf]] and the query is refused for
    a missing label. *)
Theorem CanRunCypher_reltype_checked_as_label :
  schema.FindAllStringSubmatch schema.reRel sample.cypherMembers = ["MemberOf"%string]
  /\ resolved (schema.Rels sample.presenceAD) "MemberOf"
  /\ schema.FindAllStringSubmatch schema.reLabel sample.cypherMembers
     = ["User"; "MemberOf"; "Group"]%string
  /\ schema.CanRunCypher sample.cypherMembers sample.presenceAD
     = (false, "missing label: MemberOf"%string).
Proof.
  repeat split; try (vm_compute; reflexivity); decide_by_computation.
Qed.

(** ** [Run] *)

Section Pool.

Import neo4jrunner.

Lemma running_insert_running (ws : list worker) (w : nat) (x : worker) (j : QueryJob) :
  ws !! w = Some x -> (forall j', x <> Running j') ->
  running (<[w := Running j]> ws) ≡ₚ j :: running ws.
Proof.
  revert w. induction ws as [|y ws IH]; intros [|w] Hw Hx; simplify_eq/=.
  - destruct x; try reflexivity. exfalso. eapply Hx. reflexivity.
  - destruct y; simpl; rewrite (IH w Hw Hx); try reflexivity. apply Permutation_swap.
Qed.

Lemma running_insert_done (ws : list worker) (w : nat) (y : worker) (j : QueryJob) :
  ws !! w = Some (Running j) -> (forall j', y <> Running j') ->
  running ws ≡ₚ j :: running (<[w := y]> ws).
Proof.
  revert w. induction ws as [|x ws IH]; intros [|w] Hw Hy; simplify_eq/=.
  - destruct y; try reflexivity. exfalso. eapply Hy. reflexivity.
  - destruct x; simpl; rewrite (IH w Hw Hy); try reflexivity. apply Permutation_swap.
Qed.

Lemma running_insert_idle (ws : list worker) (w : nat) (x y : worker) :
  ws !! w = Some x -> (forall j', x <> Running j') -> (forall j', y <> Running j') ->
  running (<[w := y]> ws) = running ws.
Proof.
  revert w. induction ws as [|z ws IH]; intros [|w] Hw Hx Hy; simplify_eq/=.
  - destruct x, y; try reflexivity; exfalso;
      first [eapply Hx; reflexivity | eapply Hy; reflexivity].
  - destruct z; simpl; rewrite (IH w Hw Hx Hy); reflexivity.
Qed.

Lemma running_replicate (n : nat) : running (replicate n AtSelect) = [].
Proof. induction n; simpl; auto. Qed.

Lemma weight_insert (ws : list worker) (w : nat) (x y : worker) :
  ws !! w = Some x ->
  (foldr (fun w n => weight w + n) 0 (<[w := y]> ws) + weight x
   = foldr (fun w n => weight w + n) 0 ws + weight y)%nat.
Proof.
  revert w. induction ws as [|z ws IH]; intros [|w] Hw; simplify_eq/=; [lia |].
  specialize (IH w Hw). lia.
Qed.

Lemma step_measure (opts : RunnerOpts) (s s' : state) :
  step opts s s' -> (measure s' < measure s)%nat.
Proof.
  destruct 1; unfold measure; simpl; try lia.
  - pose proof (weight_insert ws w _ (Running j) H). simpl in *. lia.
  - pose proof (weight_insert ws w _ (Recorded (bool_decide (err <> None))) H).
    simpl in *. lia.
  - pose proof (weight_insert ws w _ AtSelect H). simpl in *. lia.
  - pose proof (weight_insert ws w _ Exited H). simpl in *. lia.
  - pose proof (weight_insert ws w _ Exited H). simpl in *. lia.
Qed.

Lemma running_elem (ws : list worker) (w : nat) (j : QueryJob) :
  ws !! w = Some (Running j) -> j ∈ running ws.
Proof.
  intros Hw. rewrite (running_insert_done ws w AtSelect j Hw) by discriminate.
  apply list_elem_of_here.
Qed.

Section Jobs.

Variable jobs : list QueryJob.
Hypothesis jobs_unique : NoDup (Index <$> jobs).
Hypothesis jobs_in_range :
  Forall (fun j => 0 <= Index j < Z.of_nat (length jobs)) jobs.

Lemma distinct_slots (l1 l2 : list QueryJob) (j1 j2 : QueryJob) :
  l1 ++ l2 ≡ₚ jobs -> j1 ∈ l1 -> j2 ∈ l2 ->
  Z.to_nat (Index j1) <> Z.to_nat (Index j2).
Proof.
  intros Hperm H1 H2.
  assert (Hnd : NoDup (Index <$> (l1 ++ l2))) by (rewrite Hperm; exact jobs_unique).
  rewrite fmap_app in Hnd. apply NoDup_app in Hnd as (_ & Hdisj & _).
  pose proof jobs_in_range as Hrange. rewrite Forall_forall in Hrange.
  assert (Hr1 : 0 <= Index j1).
  { apply Hrange. rewrite <- Hperm. apply elem_of_app. left. exact H1. }
  assert (Hr2 : 0 <= Index j2).
  { apply Hrange. rewrite <- Hperm. apply elem_of_app. right. exact H2. }
  intros Heq. apply (Hdisj (Index j1)).
  - apply list_elem_of_fmap. eauto.
  - replace (Index j1) with (Index j2) by lia. apply list_elem_of_fmap. eauto.
Qed.

Lemma init_invariant (opts : RunnerOpts) : invariant jobs (init opts jobs).
Proof.
  unfold invariant, init; simpl. repeat split.
  - apply length_replicate.
  - rewrite running_replicate. reflexivity.
  - intros j r Hin. inversion Hin.
  - intros i Hi _. apply lookup_replicate_2. exact Hi.
Qed.

Lemma step_invariant (opts : RunnerOpts) (s s' : state) :
  invariant jobs s -> step opts s s' -> invariant jobs s'.
Proof.
  intros (Hpan & Hlen & Hperm & Hout & Hzero) Hstep.
  destruct Hstep; unfold invariant; simpl in *.
  - (* dispatch *)
    repeat split; try assumption.
    rewrite running_insert_running by (eassumption || discriminate).
    rewrite <- Hperm. simpl. rewrite (Permutation_middle (running ws) rest j).
    reflexivity.
  - (* record *)
    assert (Hperm' : ex.*1 ++ (j :: running (<[w:=Recorded (bool_decide (err <> None))]> ws) ++ p)
                     ≡ₚ jobs).
    { rewrite <- Hperm. apply Permutation_app_head. simpl.
      rewrite (running_insert_done ws w (Recorded (bool_decide (err <> None))) j)
        by (assumption || discriminate).
      reflexivity. }
    repeat split.
    + rewrite length_insert. exact Hlen.
    + rewrite <- Hperm'. simpl. apply Permutation_middle.
    + intros j' r' Hin. apply elem_of_cons in Hin as [[= -> ->] | Hin].
      * apply list_lookup_insert_eq. lia.
      * rewrite list_lookup_insert_ne; [apply Hout; exact Hin |].
        apply not_eq_sym.
        apply (distinct_slots _ _ j' j Hperm'); [| apply list_elem_of_here].
        apply list_elem_of_fmap. exists (j', r'). split; [reflexivity | exact Hin].
    + intros i Hi Hfree.
      rewrite list_lookup_insert_ne.
      * apply Hzero; [exact Hi |]. intros j' r' Hin. apply (Hfree j' r').
        apply list_elem_of_further. exact Hin.
      * apply (Hfree j (mkQueryResult rs err false "")). apply list_elem_of_here.
  - (* panic: excluded *)
    exfalso. apply H0.
    assert (Hj : j ∈ jobs).
    { rewrite <- Hperm. apply running_elem in H.
      apply elem_of_app. right. apply elem_of_app. left. exact H. }
    pose proof jobs_in_range as Hrange. rewrite Forall_forall in Hrange.
    rewrite Hlen. apply Hrange, Hj.
  - (* signal *)
    repeat split; try assumption.
    rewrite (running_insert_idle ws w (Recorded failed) AtSelect)
      by (assumption || discriminate).
    exact Hperm.
  - (* worker, stop *)
    repeat split; try assumption.
    rewrite (running_insert_idle ws w AtSelect Exited) by (assumption || discriminate).
    exact Hperm.
  - (* worker, channel closed *)
    repeat split; try assumption.
    rewrite (running_insert_idle ws w AtSelect Exited) by (assumption || discriminate).
    exact Hperm.
  - repeat split; assumption.
  - repeat split; assumption.
Qed.

Lemma reachable_invariant (opts : RunnerOpts) (s : state) :
  reachable opts jobs s -> invariant jobs s.
Proof.
  unfold reachable. revert s.
  apply (rtc_ind_r (invariant jobs)).
  - apply init_invariant.
  - intros y z _ Hstep IH. eapply step_invariant; eassumption.
Qed.

End Jobs.

Lemma worker_not_exited (ws : list worker) :
  ~ Forall (fun w => w = Exited) ws -> exists i x, ws !! i = Some x /\ x <> Exited.
Proof.
  intros Hn. apply not_Forall_Exists in Hn.
  - apply Exists_exists in Hn as (x & Hin & Hx).
    apply list_elem_of_lookup in Hin as [i Hi]. eauto.
  - intros [| | |]; (left; reflexivity) || (right; discriminate).
Qed.

Lemma step_progress (opts : RunnerOpts) (s : state) :
  panicked s = false -> ~ finished s -> exists s', step opts s s'.
Proof.
  destruct s as [p c st ws o ex pan]; unfold finished; simpl. intros -> Hn.
  destruct (worker_not_exited ws) as (w & x & Hw & Hx); [tauto |].
  destruct x as [|j|failed|]; [| | | congruence].
  - destruct st; [eexists; apply step_worker_stop; exact Hw |].
    destruct c; [eexists; apply step_worker_closed; exact Hw |].
    destruct p as [|j rest].
    + eexists. apply step_producer_done.
    + eexists. apply step_dispatch. exact Hw.
  - destruct (decide (0 <= Index j < Z.of_nat (length o))) as [Hin|Hout].
    + destruct (execWithRetries sample.worldPermanent (Retries opts))
        as [[rs err] tr] eqn:Hexec.
      eexists. eapply step_record; eassumption.
    + eexists. eapply step_panic; eassumption.
  - eexists. eapply step_signal. exact Hw.
Qed.

End Pool.

(** C1: let the [Index] fields of [jobs] be distinct and within
    0..len(jobs)-1.  (1) In every state that [Run] reaches, under every
    interleaving, nothing has panicked, the slice has len(jobs) slots, each
    outcome produced so far is that of a job of [jobs] and sits in the slot
    of that job's [Index], and no job has produced two outcomes; this holds
    in particular of the slice [Run] returns.  (2) [Run] is never stuck
    before every worker has exited.  (3) Every step lowers [measure], so
    every interleaving ends: [Run] returns. *)
Theorem Run_order_invariant (jobs : list neo4jrunner.QueryJob)
    (opts : neo4jrunner.RunnerOpts) :
  NoDup (neo4jrunner.Index <$> jobs) ->
  Forall (fun j => 0 <= neo4jrunner.Index j < Z.of_nat (length jobs)) jobs ->
  (forall s,
      neo4jrunner.reachable opts jobs s ->
      neo4jrunner.panicked s = false
      /\ length (neo4jrunner.out s) = length jobs
      /\ (forall j r,
            (j, r) ∈ neo4jrunner.executed s ->
            j ∈ jobs
            /\ neo4jrunner.out s !! Z.to_nat (neo4jrunner.Index j) = Some r)
      /\ NoDup (neo4jrunner.executed s).*1)
  /\ (forall s,
        neo4jrunner.reachable opts jobs s ->
        ~ neo4jrunner.finished s ->
        exists s', neo4jrunner.step (neo4jrunner.normalize opts) s s')
  /\ (forall s s',
        neo4jrunner.step (neo4jrunner.normalize opts) s s' ->
        (neo4jrunner.measure s' < neo4jrunner.measure s)%nat).
Proof.
  intros Hnd Hrange. repeat split.
  - eapply reachable_invariant; eassumption.
  - eapply reachable_invariant; eassumption.
  - destruct (reachable_invariant jobs Hnd Hrange opts s H) as (_ & _ & Hperm & _).
    rewrite <- Hperm. apply elem_of_app. left.
    apply list_elem_of_fmap. exists (j, r). split; [reflexivity | assumption].
  - destruct (reachable_invariant jobs Hnd Hrange opts s H) as (_ & _ & _ & Hout & _).
    apply Hout. assumption.
  - destruct (reachable_invariant jobs Hnd Hrange opts s H) as (_ & _ & Hperm & _).
    apply NoDup_fmap_1 in Hnd. rewrite <- Hperm in Hnd.
    apply NoDup_app in Hnd as (Hnd & _). exact Hnd.
  - intros s Hr Hn. apply step_progress; [| exact Hn].
    eapply reachable_invariant; eassumption.
  - intros s s'. apply step_measure.
Qed.

(** ** A fail-fast run *)

Lemma jobs5_unique : NoDup (neo4jrunner.Index <$> sample.jobs5).
Proof. apply (bool_decide_unpack _). vm_compute. exact I. Qed.

Lemma jobs5_in_range :
  Forall (fun j => 0 <= neo4jrunner.Index j < Z.of_nat (length sample.jobs5))
    sample.jobs5.
Proof. repeat constructor; simpl; lia. Qed.

Lemma finalFF_reachable : neo4jrunner.reachable sample.optsFF sample.jobs5 sample.finalFF.
Proof.
  unfold neo4jrunner.reachable.
  eapply rtc_l.
  { apply (neo4jrunner.step_dispatch _ (sample.job 0 "q0") _ _ _ _ _ 0%nat). reflexivity. }
  eapply rtc_l.
  { apply (neo4jrunner.step_dispatch _ (sample.job 1 "q1") _ _ _ _ _ 1%nat). reflexivity. }
  eapply rtc_l.
  { eapply (neo4jrunner.step_record _ _ _ _ _ _ _ 1%nat (sample.job 1 "q1")
              sample.worldPermanent).
    - reflexivity.
    - reflexivity.
    - simpl. lia. }
  eapply rtc_l.
  { eapply (neo4jrunner.step_signal _ _ _ _ _ _ _ 1%nat). reflexivity. }
  eapply rtc_l.
  { eapply (neo4jrunner.step_record _ _ _ _ _ _ _ 0%nat (sample.job 0 "q0")
              sample.worldOK).
    - reflexivity.
    - reflexivity.
    - simpl. lia. }
  eapply rtc_l.
  { eapply (neo4jrunner.step_signal _ _ _ _ _ _ _ 0%nat). reflexivity. }
  eapply rtc_l.
  { eapply (neo4jrunner.step_worker_stop _ _ _ _ _ _ 0%nat). reflexivity. }
  eapply rtc_l.
  { eapply (neo4jrunner.step_worker_stop _ _ _ _ _ _ 1%nat). reflexivity. }
  apply rtc_refl.
Qed.

(** ** The merge of [main] *)

Section Merge.

Variable schemaSkip : bool.
Variable presence : schema.Presence.
Variable qs : list queries.Query.

Lemma planLoop_planned (rest : list queries.Query) :
  forall (i : nat) outs jobs idx,
    drop i qs = rest ->
    planned schemaSkip presence qs i outs jobs idx ->
    match main.planLoop schemaSkip presence i rest outs jobs idx with
    | (outs', jobs', idx') =>
        planned schemaSkip presence qs (length qs) outs' jobs' idx'
    end.
Proof.
  induction rest as [|q rest IH]; intros i outs jobs idx Hdrop Hinv;
    destruct Hinv as (H1 & H2 & H3 & H4 & H5 & H6).
  - simpl.
    assert (Hi : (length qs <= i)%nat).
    { apply (f_equal length) in Hdrop. rewrite length_drop in Hdrop. simpl in Hdrop. lia. }
    repeat split; try assumption.
    + apply Forall_lookup. intros j k Hj.
      destruct (H5 j k Hj) as (q & Hq & _). eapply lookup_lt_Some. exact Hq.
    + intros k q' Hk Hq. apply H6; [| exact Hq]. lia.
  - assert (Hq : qs !! i = Some q).
    { rewrite <- (Nat.add_0_r i), <- lookup_drop, Hdrop. reflexivity. }
    assert (Hrest : drop (S i) qs = rest).
    { rewrite (drop_S _ _ _ Hq) in Hdrop. injection Hdrop as Hdrop. exact Hdrop. }
    assert (Hlt : (i < length outs)%nat).
    { rewrite H1. eapply lookup_lt_Some. exact Hq. }
    assert (Hfresh : i ∉ idx).
    { intros Hin. rewrite Forall_forall in H3. specialize (H3 i Hin). lia. }
    cbn [main.planLoop].
    assert (Hv : skipReason schemaSkip presence q
                 = match (if schemaSkip
                          then schema.CanRunCypher (queries.Cypher q) presence
                          else (true, ""%string)) with
                   | (false, why) => Some why
                   | (true, _) => None
                   end) by reflexivity.
    destruct (if schemaSkip then schema.CanRunCypher (queries.Cypher q) presence
              else (true, ""%string)) as [[|] why].
    + (* planned as a job *)
      apply IH; [exact Hrest |]. repeat split.
      * exact H1.
      * rewrite !length_app, H2. reflexivity.
      * apply Forall_app. split.
        -- eapply Forall_impl; [exact H3 |]. simpl. intros; lia.
        -- repeat constructor.
      * apply NoDup_app. repeat split.
        -- exact H4.
        -- intros x Hx Hx'. apply list_elem_of_singleton in Hx'. subst x. contradiction.
        -- apply NoDup_singleton.
      * intros j k Hj. apply lookup_app_Some in Hj as [Hj | [Hge Hj]].
        -- destruct (H5 j k Hj) as (q' & Hq' & Hs & Hjob).
           exists q'. repeat split; try assumption.
           apply lookup_app_l_Some. exact Hjob.
        -- apply list_lookup_singleton_Some in Hj as [Hj ->].
           assert (j = length idx) as -> by lia.
           exists q. repeat split; try assumption.
           rewrite <- H2. rewrite lookup_app_r, Nat.sub_diag by lia. reflexivity.
      * intros k q' Hk Hq'.
        destruct (decide (k = i)) as [->|Hne].
        -- rewrite Hq in Hq'. injection Hq' as <-. rewrite Hv.
           apply elem_of_app. right. apply list_elem_of_singleton. reflexivity.
        -- specialize (H6 k q' ltac:(lia) Hq').
           destruct (skipReason schemaSkip presence q') as [why'|].
           ++ destruct H6 as [Ho Hn]. split; [exact Ho |].
              intros Hin. apply elem_of_app in Hin as [Hin | Hin]; [contradiction |].
              apply list_elem_of_singleton in Hin. contradiction.
           ++ apply elem_of_app. left. exact H6.
    + (* skipped *)
      apply IH; [exact Hrest |]. repeat split.
      * rewrite length_insert. exact H1.
      * exact H2.
      * eapply Forall_impl; [exact H3 |]. simpl. intros; lia.
      * exact H4.
      * exact H5.
      * intros k q' Hk Hq'.
        destruct (decide (k = i)) as [->|Hne].
        -- rewrite Hq in Hq'. injection Hq' as <-. rewrite Hv.
           split; [| exact Hfresh]. apply list_lookup_insert_eq. exact Hlt.
        -- specialize (H6 k q' ltac:(lia) Hq').
           destruct (skipReason schemaSkip presence q') as [why'|]; [| exact H6].
           destruct H6 as [Ho Hn]. split; [| exact Hn].
           rewrite list_lookup_insert_ne by (apply not_eq_sym; exact Hne). exact Ho.
Qed.

Lemma plan_planned :
  match main.plan schemaSkip presence qs with
  | (outs, jobs, idx) => planned schemaSkip presence qs (length qs) outs jobs idx
  end.
Proof.
  unfold main.plan. apply planLoop_planned; [reflexivity |].
  repeat split.
  - apply length_replicate.
  - constructor.
  - constructor.
  - intros j k Hj. discriminate.
  - intros k q Hk. lia.
Qed.

End Merge.

Lemma skipReason_Some (schemaSkip : bool) (presence : schema.Presence)
    (q : queries.Query) (why : string) :
  skipReason schemaSkip presence q = Some why ->
  schemaSkip = true /\ schema.CanRunCypher (queries.Cypher q) presence = (false, why).
Proof.
  unfold skipReason. destruct schemaSkip; [| discriminate].
  destruct (schema.CanRunCypher (queries.Cypher q) presence) as [[|] why'];
    [discriminate |].
  intros [= ->]. split; reflexivity.
Qed.

Lemma checkAll_refusal (known : gset string) (what : string) (ms : list string)
    (next : bool * string) (why : string) :
  schema.checkAll known what ms next = (false, why) ->
  (exists X, why = ("missing " ++ what ++ ": " ++ X)%string) \/ next = (false, why).
Proof.
  induction ms as [|m ms IH]; simpl; [intros H; right; exact H |].
  destruct (String.eqb _ ""); [exact IH |].
  destruct (bool_decide _); [exact IH |].
  intros [= <-]. left. exists m. reflexivity.
Qed.

Lemma CanRunCypher_reason (cypher : string) (p : schema.Presence) (why : string) :
  schema.CanRunCypher cypher p = (false, why) ->
  exists X, why = ("missing label: " ++ X)%string
            \/ why = ("missing relationship type: " ++ X)%string.
Proof.
  unfold schema.CanRunCypher. intros H.
  apply checkAll_refusal in H as [[X ->] | H]; [exists X; left; reflexivity |].
  apply checkAll_refusal in H as [[X ->] | H]; [exists X; right; reflexivity |].
  discriminate.
Qed.

Lemma mergeLoop_merges (qs : list queries.Query) (idx : list nat) :
  NoDup idx ->
  (forall j k, idx !! j = Some k -> is_Some (qs !! k)) ->
  forall (results : list neo4jrunner.QueryResult) (j : nat) (outs : list report.Output),
    length outs = length qs ->
    (j + length results = length idx)%nat ->
    exists final,
      main.mergeLoop qs idx j results outs = Some final
      /\ length final = length qs
      /\ (forall k, (forall j', (j <= j')%nat -> idx !! j' <> Some k) ->
            final !! k = outs !! k)
      /\ (forall j' k q r,
            idx !! j' = Some k -> (j <= j')%nat -> qs !! k = Some q ->
            results !! (j' - j)%nat = Some r ->
            final !! k = Some (main.outputOf q r)).
Proof.
  intros Hnd Hvalid. induction results as [|r results IH]; intros j outs Hlen Hj.
  - exists outs. repeat split; try assumption; try reflexivity.
    intros j' k q r _ _ _ Hr. discriminate.
  - simpl in Hj.
    destruct (lookup_lt_is_Some_2 idx j ltac:(lia)) as [i Hi].
    destruct (Hvalid j i Hi) as [q Hq].
    assert (Hlt : (i < length outs)%nat).
    { rewrite Hlen. eapply lookup_lt_Some. exact Hq. }
    cbn [main.mergeLoop]. rewrite Hi, Hq, bool_decide_eq_true_2 by exact Hlt.
    destruct (IH (S j) (<[i := main.outputOf q r]> outs)) as (final & Hm & Hl & Hkeep & Hset).
    { rewrite length_insert. exact Hlen. }
    { lia. }
    assert (Hlater : forall j', (S j <= j')%nat -> idx !! j' <> Some i).
    { intros j' Hj' Hi'. pose proof (NoDup_lookup idx j j' i Hnd Hi Hi'). lia. }
    exists final. repeat split; try assumption.
    + intros k Hk. rewrite Hkeep by (intros j' Hj'; apply Hk; lia).
      apply list_lookup_insert_ne. intros ->. exact (Hk j (Nat.le_refl j) Hi).
    + intros j' k q' r' Hk Hj' Hq' Hr'.
      destruct (decide (j' = j)) as [->|Hne].
      * rewrite Hi in Hk. injection Hk as <-.
        rewrite Hq in Hq'. injection Hq' as <-.
        rewrite Nat.sub_diag in Hr'. injection Hr' as <-.
        rewrite (Hkeep i Hlater). apply list_lookup_insert_eq. exact Hlt.
      * apply (Hset j' k q' r' Hk); [lia | exact Hq' |].
        replace (j' - j)%nat with (S (j' - S j)) in Hr' by lia. exact Hr'.
Qed.

Lemma planned_jobs_dense (schemaSkip : bool) (presence : schema.Presence)
    (qs : list queries.Query) (i : nat) outs jobs idx :
  planned schemaSkip presence qs i outs jobs idx ->
  NoDup (neo4jrunner.Index <$> jobs)
  /\ Forall (fun j => 0 <= neo4jrunner.Index j < Z.of_nat (length jobs)) jobs.
Proof.
  intros (_ & H2 & _ & _ & H5 & _).
  assert (Hdense : forall j job, jobs !! j = Some job -> neo4jrunner.Index job = Z.of_nat j).
  { intros j job Hjob.
    destruct (lookup_lt_is_Some_2 idx j) as [k Hk].
    { rewrite <- H2. eapply lookup_lt_Some. exact Hjob. }
    destruct (H5 j k Hk) as (q & _ & _ & Hjob'). rewrite Hjob in Hjob'.
    injection Hjob' as ->. reflexivity. }
  split.
  - apply NoDup_alt. intros j1 j2 x H1 H2'.
    rewrite list_lookup_fmap in H1, H2'.
    destruct (jobs !! j1) as [job1|] eqn:E1; [| discriminate].
    destruct (jobs !! j2) as [job2|] eqn:E2; [| discriminate].
    simpl in H1, H2'. injection H1 as H1. injection H2' as H2'.
    rewrite (Hdense _ _ E1) in H1. rewrite (Hdense _ _ E2) in H2'. lia.
  - apply Forall_lookup. intros j job Hjob. rewrite (Hdense _ _ Hjob).
    apply lookup_lt_Some in Hjob. lia.
Qed.

(** C9: let [Run] have returned the slice [out s] for the jobs planned from
    [qs].  The merge succeeds, without a panic, and hands to reporting a
    slice of len(qs) entries whose i-th entry is about the i-th query and is
    either the planner's skip (skipped=true, the non-empty reason that
    [CanRunCypher] gave, no result set, no error, no job planned for the
    query) or, skipped=false and no reason, the result set of the slot of
    the job planned for that query and the message of the slot's error,
    the empty message when the slot holds none.  The merge is a function
    of the two slices: no I/O, and no entry depends on another query's
    failure. *)
Theorem assemble_complete (schemaSkip : bool) (presence : schema.Presence)
    (qs : list queries.Query) (opts : neo4jrunner.RunnerOpts) (s : neo4jrunner.state) :
  neo4jrunner.reachable opts (main.plan schemaSkip presence qs).1.2 s ->
  neo4jrunner.finished s ->
  exists final,
    main.assemble schemaSkip presence qs (neo4jrunner.out s) = Some final
    /\ length final = length qs
    /\ forall i q,
         qs !! i = Some q ->
         exists o,
           final !! i = Some o
           /\ report.Query o = q
           /\ ((exists why,
                  o = report.mkOutput q neo4jrunner.emptyResultSet "" true why
                  /\ schemaSkip = true
                  /\ schema.CanRunCypher (queries.Cypher q) presence = (false, why)
                  /\ why <> ""%string
                  /\ i ∉ (main.plan schemaSkip presence qs).2)
               \/ (exists j r,
                     (main.plan schemaSkip presence qs).2 !! j = Some i
                     /\ (main.plan schemaSkip presence qs).1.2 !! j = Some (jobFor j q)
                     /\ neo4jrunner.out s !! j = Some r
                     /\ report.Result o = neo4jrunner.ResultSet' r
                     /\ report.Error o
                        = match neo4jrunner.Err r with
                          | Some err => neo4jrunner.Error err
                          | None => ""%string
                          end
                     /\ report.Skipped o = false
                     /\ report.SkipWhy o = ""%string)).
Proof.
  intros Hreach _. unfold main.assemble.
  pose proof (plan_planned schemaSkip presence qs) as Hplan.
  destruct (main.plan schemaSkip presence qs) as [[outs jobs] idx]. simpl in *.
  destruct (planned_jobs_dense _ _ _ _ _ _ _ Hplan) as [Hnd Hrange].
  destruct (reachable_invariant jobs Hnd Hrange opts s Hreach) as (_ & Hlen & _).
  destruct Hplan as (H1 & H2 & H3 & H4 & H5 & H6).
  destruct (mergeLoop_merges qs idx H4) with (results := neo4jrunner.out s)
    (j := O) (outs := outs) as (final & Hm & Hl & Hkeep & Hset).
  { intros j k Hk. destruct (H5 j k Hk) as (q & Hq & _). eauto. }
  { exact H1. }
  { simpl. rewrite Hlen, H2. reflexivity. }
  exists final. split; [exact Hm | split; [exact Hl |]].
  intros i q Hq. specialize (H6 i q (lookup_lt_Some _ _ _ Hq) Hq).
  destruct (skipReason schemaSkip presence q) as [why|] eqn:Hskip.
  - destruct H6 as [Ho Hfresh].
    exists (skippedOutput q why). split; [| split; [reflexivity |]].
    + rewrite Hkeep; [exact Ho |]. intros j' _ Hj'.
      apply Hfresh. apply list_elem_of_lookup. eauto.
    + left. exists why. apply skipReason_Some in Hskip as [Hs Hc].
      repeat split; try assumption.
      destruct (CanRunCypher_reason _ _ _ Hc) as [X [-> | ->]]; discriminate.
  - apply list_elem_of_lookup in H6 as [j Hj].
    destruct (H5 j i Hj) as (q' & Hq' & _ & Hjob).
    rewrite Hq in Hq'. injection Hq' as <-.
    destruct (lookup_lt_is_Some_2 (neo4jrunner.out s) j) as [r Hr].
    { rewrite Hlen. eapply lookup_lt_Some. exact Hjob. }
    exists (main.outputOf q r). split; [| split; [reflexivity |]].
    + apply (Hset j i q r Hj); [lia | exact Hq |]. rewrite Nat.sub_0_r. exact Hr.
    + right. exists j, r. split_and!; try assumption; reflexivity.
Qed.

Lemma plan_qs5 :
  main.plan true sample.presenceAD sample.qs5
  = (replicate 5 report.zeroOutput, sample.jobs5, [0; 1; 2; 3; 4]%nat).
Proof. vm_compute. reflexivity. Qed.

Lemma finalFF_finished : neo4jrunner.finished sample.finalFF.
Proof. split; [reflexivity | repeat constructor]. Qed.

Lemma assemble_complete_witness :
  exists final,
    main.assemble true sample.presenceAD sample.qs5 (neo4jrunner.out sample.finalFF)
    = Some final
    /\ length final = length sample.qs5
    /\ exists o, final !! 1%nat = Some o /\ report.Query o = sample.query "q1".
Proof.
  destruct (assemble_complete true sample.presenceAD sample.qs5 sample.optsFF
              sample.finalFF) as (final & Hm & Hl & Hall).
  - rewrite plan_qs5. exact finalFF_reachable.
  - exact finalFF_finished.
  - exists final. split; [exact Hm | split; [exact Hl |]].
    destruct (Hall 1%nat (sample.query "q1") eq_refl) as (o & Ho & Hq & _).
    exists o. split; assumption.
Defined.

Lemma Run_order_invariant_witness :
  neo4jrunner.panicked sample.finalFF = false
  /\ length (neo4jrunner.out sample.finalFF) = length sample.jobs5
  /\ (forall j r,
        (j, r) ∈ neo4jrunner.executed sample.finalFF ->
        j ∈ sample.jobs5
        /\ neo4jrunner.out sample.finalFF !! Z.to_nat (neo4jrunner.Index j) = Some r)
  /\ NoDup (neo4jrunner.executed sample.finalFF).*1.
Proof.
  apply (proj1 (Run_order_invariant sample.jobs5 sample.optsFF
                  jobs5_unique jobs5_in_range) sample.finalFF).
  exact finalFF_reachable.
Defined.

(** C5, the code on five jobs, two workers and fail-fast, when q1 fails for
    good: there is a run in which q0 and q1 are the only jobs handed to a
    worker, q0 completing after the stop, and [Run] returns with q2, q3 and
    q4 still undispatched.  The slot of q4 holds the zero value, neither
    skipped nor failed, and the merge reports q4 as not skipped, with no
    error and no rows: the same entry as for a query that was run and found
    nothing. *)
Theorem Run_failfast_undispatched_not_skipped :
  neo4jrunner.reachable sample.optsFF sample.jobs5 sample.finalFF
  /\ neo4jrunner.finished sample.finalFF
  /\ neo4jrunner.pending sample.finalFF
     = [sample.job 2 "q2"; sample.job 3 "q3"; sample.job 4 "q4"]
  /\ (neo4jrunner.executed sample.finalFF).*1 = [sample.job 0 "q0"; sample.job 1 "q1"]
  /\ neo4jrunner.out sample.finalFF !! 0%nat
     = Some (neo4jrunner.mkQueryResult sample.rsOne None false "")
  /\ neo4jrunner.out sample.finalFF !! 4%nat = Some neo4jrunner.zeroQueryResult
  /\ neo4jrunner.Skipped neo4jrunner.zeroQueryResult = false
  /\ neo4jrunner.Err neo4jrunner.zeroQueryResult = None
  /\ exists final,
       main.assemble true sample.presenceAD sample.qs5 (neo4jrunner.out sample.finalFF)
       = Some final
       /\ final !! 4%nat
          = Some (report.mkOutput (sample.query "q4") neo4jrunner.emptyResultSet
                    "" false "").
Proof.
  split; [exact finalFF_reachable | split; [exact finalFF_finished |]].
  repeat split.
  eexists. split; vm_compute; reflexivity.
Qed.

(** ** [ExecCypher] *)


Lemma collect_all (limit : Z) (recs : list neo4jrunner.Record') :
  forall cols rows,
    limit <= 0 ->
    neo4jrunner.collect limit recs cols rows
    = (resultset.colsAfter cols recs, rows ++ map neo4jrunner.rowOf recs, true).
Proof.
  induction recs as [|rec recs IH]; intros cols rows Hle; cbn [neo4jrunner.collect].
  - rewrite app_nil_r. reflexivity.
  - destruct (0 <? limit) eqn:E0; [apply Z.ltb_lt in E0; lia |]. cbn [andb].
    rewrite IH by exact Hle. rewrite <- app_assoc. reflexivity.
Qed.

Lemma collect_take (limit : Z) (recs : list neo4jrunner.Record') :
  forall cols rows,
    0 < limit -> Z.of_nat (length rows) < limit ->
    exists exhausted,
      neo4jrunner.collect limit recs cols rows
      = (resultset.colsAfter cols (take (Z.to_nat limit - length rows) recs),
         rows ++ map neo4jrunner.rowOf (take (Z.to_nat limit - length rows) recs),
         exhausted).
Proof.
  induction recs as [|rec recs IH]; intros cols rows Hpos Hlt; cbn [neo4jrunner.collect].
  - exists true. rewrite take_nil, app_nil_r. reflexivity.
  - destruct (0 <? limit) eqn:E0; [| apply Z.ltb_ge in E0; lia]. cbn [andb].
    replace (Z.to_nat limit - length rows)%nat
      with (S (Z.to_nat limit - length (rows ++ [neo4jrunner.rowOf rec])))
      by (rewrite length_app; simpl; lia).
    cbn [take map resultset.colsAfter].
    destruct (limit <=? Z.of_nat (length (rows ++ [neo4jrunner.rowOf rec]))) eqn:E.
    + apply Z.leb_le in E. exists false.
      replace (Z.to_nat limit - length (rows ++ [neo4jrunner.rowOf rec]))%nat with O by lia.
      rewrite take_0. reflexivity.
    + apply Z.leb_gt in E.
      destruct (IH (match cols with [] => neo4jrunner.Keys rec | _ => cols end)
                  (rows ++ [neo4jrunner.rowOf rec]) Hpos E) as [exhausted ->].
      exists exhausted. rewrite <- app_assoc. reflexivity.
Qed.




Example ExecCypher_truncates :
  neo4jrunner.queryText "MATCH (n) RETURN n LIMIT 5" 2 = "MATCH (n) RETURN n LIMIT 5"%string
  /\ neo4jrunner.ExecCypher sample.sessThree "MATCH (n) RETURN n LIMIT 5" 2
     = (neo4jrunner.mkResultSet ["n"%string]
          [[neo4jrunner.AInt 1]; [neo4jrunner.AInt 2]], None).
Proof. split; vm_compute; reflexivity. Qed.

Example queryText_appends :
  neo4jrunner.queryText "  MATCH (n) RETURN n
" 25 = "MATCH (n) RETURN n
LIMIT 25"%string.
Proof. vm_compute. reflexivity. Qed.

(* ===================================================================== *)
(** * Part III.  Further properties of the code                           *)
(* ===================================================================== *)

(** ** [execWithRetries]: every way it ends *)

Section RetryOutcome.

Import neo4jrunner.

Variable w : World.

(** The loop, from attempt [a0] with [n] iterations left, either runs out
    after [n] retried attempts or ends at attempt [a0 + k], [k < n]. *)
Lemma retryLoop_ends (n : nat) :
  forall (a0 : Z) (last : option error) rs err tr,
    retryLoop w n a0 last = (rs, err, tr) ->
    ((forall i, 0 <= i < Z.of_nat n -> failsTransiently w (a0 + i) /\ ctxAlive w (a0 + i))
     /\ rs = emptyResultSet /\ err = lastErrAfter w a0 n last /\ tr = retried a0 n)
    \/ exists (k : nat) tail,
         (k < n)%nat
         /\ (forall i, 0 <= i < Z.of_nat k ->
               failsTransiently w (a0 + i) /\ ctxAlive w (a0 + i))
         /\ tr = retried a0 k ++ tail
         /\ endsAt w (a0 + Z.of_nat k) rs err tail.
Proof.
  induction n as [|n IH]; intros a0 last rs err tr; cbn [retryLoop].
  - intros [= <- <- <-]. left. repeat split; lia.
  - assert (Hstop : forall rs' err' tail,
               endsAt w a0 rs' err' tail ->
               exists (k : nat) tail',
                 (k < S n)%nat
                 /\ (forall i, 0 <= i < Z.of_nat k ->
                       failsTransiently w (a0 + i) /\ ctxAlive w (a0 + i))
                 /\ tail = retried a0 k ++ tail'
                 /\ endsAt w (a0 + Z.of_nat k) rs' err' tail').
    { intros rs' err' tail H. exists O, tail. split; [lia |].
      split; [intros i Hi; lia |]. split; [reflexivity |].
      rewrite Z.add_0_r. exact H. }
    destruct (exec w a0) as [r [e|]] eqn:Hexec.
    + assert (He : snd (exec w a0) = Some e) by (rewrite Hexec; reflexivity).
      destruct (ctxErr w a0) as [cerr|] eqn:Hc.
      { intros [= <- <- <-]. right. apply Hstop. eapply ends_context_done; eassumption. }
      destruct (looksTransient e) eqn:Ht; cbn [negb].
      2:{ intros [= <- <- <-]. right. apply Hstop. eapply ends_permanent; eassumption. }
      assert (Hf : failsTransiently w a0) by (exists e; split; assumption).
      destruct (ctxDone w a0) as [cerr|] eqn:Hd.
      { intros [= <- <- <-]. right. apply Hstop. eapply ends_interrupted; eassumption. }
      destruct (retryLoop w n (a0 + 1) (Some e)) as [[rs' err'] tr'] eqn:Hrest.
      intros [= <- <- <-].
      assert (Hshift : forall m : nat,
                 (forall i, 0 <= i < Z.of_nat m ->
                    failsTransiently w (a0 + 1 + i) /\ ctxAlive w (a0 + 1 + i)) ->
                 forall i, 0 <= i < Z.of_nat (S m) ->
                    failsTransiently w (a0 + i) /\ ctxAlive w (a0 + i)).
      { intros m Hm i Hi. destruct (Z.eq_dec i 0) as [->|Hne].
        - rewrite Z.add_0_r. split; [exact Hf | split; assumption].
        - replace (a0 + i) with (a0 + 1 + (i - 1)) by lia. apply Hm. lia. }
      destruct (IH _ _ _ _ _ Hrest)
        as [(Hall & -> & -> & ->) | (k & tail & Hk & Hall & -> & Hend)].
      * left. split; [apply Hshift; exact Hall |]. split; [reflexivity |].
        split; [| reflexivity].
        destruct n as [|n]; simpl.
        -- rewrite Z.add_0_r, Hexec. reflexivity.
        -- f_equal. f_equal. lia.
      * right. exists (S k), tail. split; [lia |]. split; [apply Hshift; exact Hall |].
        split; [reflexivity |].
        replace (a0 + Z.of_nat (S k)) with (a0 + 1 + Z.of_nat k) by lia.
        exact Hend.
    + intros [= <- <- <-]. right. apply Hstop. apply ends_success. exact Hexec.
Qed.

End RetryOutcome.

Lemma outcome_sound (w : neo4jrunner.World) (retries : Z)
    (rs : neo4jrunner.ResultSet) (err : option neo4jrunner.error)
    (tr : list neo4jrunner.event) :
  0 <= retries ->
  neo4jrunner.execWithRetries w retries = (rs, err, tr) -> outcome w retries rs err tr.
Proof.
  intros Hr. unfold neo4jrunner.execWithRetries.
  intros H. apply retryLoop_ends in H.
  destruct H as [(Hall & -> & -> & ->) | (k & tail & Hk & Hall & -> & Hend)].
  - replace (Z.to_nat (retries + 1)) with (S (Z.to_nat retries)) at 1 by lia.
    cbn [lastErrAfter]. rewrite Z.add_0_l, Z2Nat.id by lia.
    destruct (Hall retries ltac:(lia)) as [[e [He _]] _]. rewrite Z.add_0_l in He.
    rewrite He. apply outcome_exhausted; [| exact He].
    intros b Hb. specialize (Hall b ltac:(lia)). rewrite Z.add_0_l in Hall. exact Hall.
  - rewrite Z.add_0_l in Hend.
    rewrite <- (Nat2Z.id k). apply outcome_ends; [lia | | exact Hend].
    intros b Hb. specialize (Hall b ltac:(lia)). rewrite Z.add_0_l in Hall. exact Hall.
Qed.

Lemma outcome_complete (w : neo4jrunner.World) (retries : Z)
    (rs : neo4jrunner.ResultSet) (err : option neo4jrunner.error)
    (tr : list neo4jrunner.event) :
  0 <= retries ->
  outcome w retries rs err tr -> neo4jrunner.execWithRetries w retries = (rs, err, tr).
Proof.
  intros Hr. unfold neo4jrunner.execWithRetries.
  intros H. destruct H as [a rs err tail Ha Hprev Hend | e Hall He].
  - rewrite (retryLoop_retried w (Z.to_nat a)); [| lia |].
    + replace (Z.to_nat (retries + 1) - Z.to_nat a)%nat
        with (S (Z.to_nat (retries - a))) by lia.
      rewrite Z2Nat.id, Z.add_0_l by lia. cbn [neo4jrunner.retryLoop].
      destruct Hend as [rs Hexec | e cerr He Hc | e He Hc Ht | cerr [e [He Ht]] Hc Hd].
      * rewrite Hexec. reflexivity.
      * destruct (neo4jrunner.exec w a) as [r oe]. simpl in He. subst oe.
        rewrite Hc. reflexivity.
      * destruct (neo4jrunner.exec w a) as [r oe]. simpl in He. subst oe.
        rewrite Hc, Ht. reflexivity.
      * destruct (neo4jrunner.exec w a) as [r oe]. simpl in He. subst oe.
        rewrite Hc, Ht, Hd. reflexivity.
    + intros i Hi. rewrite Z.add_0_l. apply Hprev. lia.
  - rewrite (retryLoop_retried w (Z.to_nat (retries + 1))); [| lia |].
    + rewrite Nat.sub_diag. cbn [neo4jrunner.retryLoop].
      replace (Z.to_nat (retries + 1)) with (S (Z.to_nat retries)) at 1 by lia.
      cbn [lastErrAfter]. rewrite Z.add_0_l, Z2Nat.id, He, app_nil_r by lia.
      reflexivity.
    + intros i Hi. rewrite Z.add_0_l. apply Hall. lia.
Qed.

(** X1: for [retries >= 0], what [execWithRetries] returns and does is
    exactly one of five outcomes: after attempts 0..a-1 were each retried
    following a full backoff, attempt [a <= retries] succeeds and its result
    set comes back with a nil error; or it fails and the context is already
    done, or the error is not transient, or the context fires during the
    backoff, and that error comes back with [ResultSet{}]; or all
    [retries + 1] attempts were retried and the last error comes back. *)
Theorem execWithRetries_outcome (w : neo4jrunner.World) (retries : Z)
    (rs : neo4jrunner.ResultSet) (err : option neo4jrunner.error)
    (tr : list neo4jrunner.event) :
  0 <= retries ->
  (neo4jrunner.execWithRetries w retries = (rs, err, tr) <-> outcome w retries rs err tr).
Proof.
  intros Hr. split; [apply outcome_sound | apply outcome_complete]; exact Hr.
Qed.

Lemma execWithRetries_outcome_witness :
  outcome sample.worldFlaky 2 sample.rsOne None
    [neo4jrunner.EvExec 0; neo4jrunner.EvSleep 200000000; neo4jrunner.EvExec 1].
Proof.
  apply (proj1 (execWithRetries_outcome sample.worldFlaky 2 sample.rsOne None
                  [neo4jrunner.EvExec 0; neo4jrunner.EvSleep 200000000;
                   neo4jrunner.EvExec 1] ltac:(lia))).
  reflexivity.
Defined.

Lemma totalSleep_retried (k : nat) :
  forall a, 0 <= a -> a + Z.of_nat k <= 46116860184 ->
    totalSleep (retried a k)
    = 100 * neo4jrunner.Millisecond * Z.of_nat k * (2 * a + Z.of_nat k + 1).
Proof.
  induction k as [|k IH]; intros a Ha Hb; cbn [retried totalSleep]; [lia |].
  rewrite IH by lia. rewrite backoff_linear by lia.
  unfold neo4jrunner.Millisecond. nia.
Qed.

Lemma retried_snoc (k : nat) :
  forall a,
    retried a (S k)
    = retried a k ++ [neo4jrunner.EvExec (a + Z.of_nat k);
                      neo4jrunner.EvSleep (neo4jrunner.backoff (a + Z.of_nat k))].
Proof.
  induction k as [|k IH]; intros a.
  - simpl. rewrite Z.add_0_r. reflexivity.
  - change (retried a (S (S k)))
      with (neo4jrunner.EvExec a :: neo4jrunner.EvSleep (neo4jrunner.backoff a)
              :: retried (a + 1) (S k)).
    rewrite IH. cbn [retried app].
    replace (a + 1 + Z.of_nat k) with (a + Z.of_nat (S k)) by lia. reflexivity.
Qed.

(** X2: when all [retries + 1] attempts fail with transient errors and the
    context stays alive, the last error is returned only after one more
    backoff, of 200ms x (retries+1), that no attempt follows; the call has
    then slept 100ms x (retries+1) x (retries+2) in all.  (Stated for
    retries+1 <= 46116860184, the attempts whose backoff fits the 64-bit
    nanosecond count.) *)
Theorem execWithRetries_exhausted_sleep (w : neo4jrunner.World) (retries : Z) :
  0 <= retries ->
  retries + 1 <= 46116860184 ->
  (forall b, 0 <= b <= retries -> failsTransiently w b /\ ctxAlive w b) ->
  exists err tr tr',
    neo4jrunner.execWithRetries w retries = (neo4jrunner.emptyResultSet, Some err, tr)
    /\ snd (neo4jrunner.exec w retries) = Some err
    /\ tr = tr' ++ [neo4jrunner.EvExec retries;
                    neo4jrunner.EvSleep ((retries + 1) * (200 * neo4jrunner.Millisecond))]
    /\ neo4jrunner.attempts tr = Z.to_nat (retries + 1)
    /\ totalSleep tr = 100 * neo4jrunner.Millisecond * (retries + 1) * (retries + 2).
Proof.
  intros Hr Hb Hall.
  destruct (Hall retries ltac:(lia)) as [[e [He _]] _].
  exists e, (retried 0 (Z.to_nat (retries + 1))), (retried 0 (Z.to_nat retries)).
  split; [| split; [exact He | split; [| split]]].
  - apply outcome_complete; [exact Hr |]. apply outcome_exhausted; assumption.
  - replace (Z.to_nat (retries + 1)) with (S (Z.to_nat retries)) by lia.
    rewrite retried_snoc, Z.add_0_l, Z2Nat.id by lia.
    rewrite backoff_linear by lia. reflexivity.
  - rewrite <- (app_nil_r (retried 0 _)), attempts_retried. simpl. lia.
  - rewrite totalSleep_retried by lia. rewrite Z2Nat.id by lia. lia.
Qed.

Lemma execWithRetries_exhausted_sleep_witness :
  exists err tr tr',
    neo4jrunner.execWithRetries
      (neo4jrunner.mkWorld (fun _ => (neo4jrunner.emptyResultSet, Some sample.errTimeout))
         (fun _ => None) (fun _ => None)) 1
    = (neo4jrunner.emptyResultSet, Some err, tr)
    /\ snd (neo4jrunner.emptyResultSet, Some sample.errTimeout) = Some err
    /\ tr = tr' ++ [neo4jrunner.EvExec 1;
                    neo4jrunner.EvSleep ((1 + 1) * (200 * neo4jrunner.Millisecond))]
    /\ neo4jrunner.attempts tr = Z.to_nat (1 + 1)
    /\ totalSleep tr = 100 * neo4jrunner.Millisecond * (1 + 1) * (1 + 2).
Proof.
  apply (execWithRetries_exhausted_sleep
           (neo4jrunner.mkWorld (fun _ => (neo4jrunner.emptyResultSet, Some sample.errTimeout))
              (fun _ => None) (fun _ => None)) 1).
  - lia.
  - lia.
  - intros b Hb. split.
    + exists sample.errTimeout. split; reflexivity.
    + split; reflexivity.
Defined.

(** X3: with [retries < 0] the loop body never runs: [execWithRetries]
    returns [ResultSet{}] and a nil error without one execution.  [Run]
    never calls it so: after lines 46-51 [opts.Retries >= 0] and
    [opts.Parallel >= 1], and every call with such a [retries] starts with
    an execution. *)
Theorem execWithRetries_negative_retries (w : neo4jrunner.World) (retries : Z)
    (opts : neo4jrunner.RunnerOpts) :
  (retries < 0 ->
   neo4jrunner.execWithRetries w retries = (neo4jrunner.emptyResultSet, None, []))
  /\ 0 <= neo4jrunner.Retries (neo4jrunner.normalize opts)
  /\ 1 <= neo4jrunner.Parallel (neo4jrunner.normalize opts)
  /\ exists tr',
       snd (neo4jrunner.execWithRetries w (neo4jrunner.Retries (neo4jrunner.normalize opts)))
       = neo4jrunner.EvExec 0 :: tr'.
Proof.
  assert (H0 : 0 <= neo4jrunner.Retries (neo4jrunner.normalize opts)).
  { simpl. destruct (neo4jrunner.Retries opts <? 0) eqn:E; [lia |].
    apply Z.ltb_ge in E. exact E. }
  split; [| split; [exact H0 | split]].
  - intros Hneg. unfold neo4jrunner.execWithRetries.
    replace (Z.to_nat (retries + 1)) with O by lia. reflexivity.
  - simpl. destruct (neo4jrunner.Parallel opts <? 1) eqn:E; [lia |].
    apply Z.ltb_ge in E. exact E.
  - unfold neo4jrunner.execWithRetries.
    replace (Z.to_nat (neo4jrunner.Retries (neo4jrunner.normalize opts) + 1))
      with (S (Z.to_nat (neo4jrunner.Retries (neo4jrunner.normalize opts)))) by lia.
    apply retryLoop_starts.
Qed.

Lemma execWithRetries_negative_retries_witness :
  neo4jrunner.execWithRetries sample.worldOK (-1) = (neo4jrunner.emptyResultSet, None, []).
Proof.
  apply (proj1 (execWithRetries_negative_retries sample.worldOK (-1) sample.optsFF)).
  lia.
Defined.

(** ** [Run]: the pool *)

Section PoolMore.

Import neo4jrunner.

Lemma running_length (ws : list worker) : (length (running ws) <= length ws)%nat.
Proof. induction ws as [|[] ws IH]; simpl; lia. Qed.

Lemma running_all_exited (ws : list worker) :
  Forall (fun w => w = Exited) ws -> running ws = [].
Proof. induction 1 as [|w ws -> _ IH]; simpl; auto. Qed.

Lemma init_poolInvariant (opts : RunnerOpts) (jobs : list QueryJob) :
  poolInvariant opts jobs (init opts jobs).
Proof.
  unfold poolInvariant, init; simpl. repeat split.
  - apply length_replicate.
  - discriminate.
  - discriminate.
  - intros w Hw. apply lookup_replicate in Hw as [Hw _]. discriminate.
  - discriminate.
  - intros w Hw. apply lookup_replicate in Hw as [Hw _]. discriminate.
  - exists []. reflexivity.
  - apply Forall_replicate. split; reflexivity.
Qed.

(** A worker found in a state other than the one just written. *)
Ltac other_worker H :=
  apply list_lookup_insert_Some in H as [(_ & H & _) | (_ & H)]; [discriminate |].

Lemma step_poolInvariant (opts : RunnerOpts) (jobs : list QueryJob) (s s' : state) :
  poolInvariant opts jobs s -> step opts s s' -> poolInvariant opts jobs s'.
Proof.
  intros (Hlen & Hstop & Hrec & Hclosed & Hexit & Hsent & Hskip) Hstep.
  destruct Hstep; unfold poolInvariant; simpl in *; split_and!.
  - (* dispatch *) rewrite length_insert. exact Hlen.
  - exact Hstop.
  - intros w' Hw'. other_worker Hw'. eauto.
  - discriminate.
  - intros w' Hw'. other_worker Hw'. eauto.
  - destruct Hsent as [sent ->]. exists (sent ++ [j]). rewrite <- app_assoc. reflexivity.
  - exact Hskip.
  - (* record *) rewrite length_insert. exact Hlen.
  - intros Hst. destruct (Hstop Hst) as (Hff & j' & r' & Hin & He).
    split; [exact Hff |]. exists j', r'.
    split; [apply list_elem_of_further; exact Hin | exact He].
  - intros w' Hw'.
    apply list_lookup_insert_Some in Hw' as [(_ & Hw' & _) | (_ & Hw')].
    + injection Hw' as Hw'. apply bool_decide_eq_true_1 in Hw'.
      exists j, (mkQueryResult rs err false "").
      split; [apply list_elem_of_here | exact Hw'].
    + destruct (Hrec w' Hw') as (j' & r' & Hin & He).
      exists j', r'. split; [apply list_elem_of_further; exact Hin | exact He].
  - exact Hclosed.
  - intros w' Hw'. other_worker Hw'. eauto.
  - exact Hsent.
  - apply Forall_insert; [exact Hskip | split; reflexivity].
  - (* panic *) exact Hlen.
  - exact Hstop.
  - exact Hrec.
  - exact Hclosed.
  - exact Hexit.
  - exact Hsent.
  - exact Hskip.
  - (* signal *) rewrite length_insert. exact Hlen.
  - intros Hst. apply orb_true_iff in Hst as [Hst | Hst]; [apply Hstop; exact Hst |].
    apply andb_true_iff in Hst as [-> Hff]. split; [exact Hff |]. eapply Hrec. eassumption.
  - intros w' Hw'. other_worker Hw'. eauto.
  - intros Hc. destruct (Hclosed Hc) as [-> | Hp]; [left; reflexivity | right; exact Hp].
  - intros w' Hw'. other_worker Hw'.
    destruct (Hexit w' Hw') as [-> | Hc]; [left; reflexivity | right; exact Hc].
  - exact Hsent.
  - exact Hskip.
  - (* worker, stop *) rewrite length_insert. exact Hlen.
  - exact Hstop.
  - intros w' Hw'. other_worker Hw'. eauto.
  - intros _. left. reflexivity.
  - intros _ _. left. reflexivity.
  - exact Hsent.
  - exact Hskip.
  - (* worker, channel closed *) rewrite length_insert. exact Hlen.
  - exact Hstop.
  - intros w' Hw'. other_worker Hw'. eauto.
  - exact Hclosed.
  - intros _ _. right. reflexivity.
  - exact Hsent.
  - exact Hskip.
  - (* producer, done *) exact Hlen.
  - exact Hstop.
  - exact Hrec.
  - intros _. right. reflexivity.
  - intros _ _. right. reflexivity.
  - exact Hsent.
  - exact Hskip.
  - (* producer, stop *) exact Hlen.
  - exact Hstop.
  - exact Hrec.
  - intros _. left. reflexivity.
  - intros _ _. left. reflexivity.
  - exact Hsent.
  - exact Hskip.
Qed.

Lemma reachable_poolInvariant (opts : RunnerOpts) (jobs : list QueryJob) (s : state) :
  reachable opts jobs s -> poolInvariant (normalize opts) jobs s.
Proof.
  unfold reachable. revert s.
  apply (rtc_ind_r (poolInvariant (normalize opts) jobs)).
  - apply init_poolInvariant.
  - intros y z _ Hstep IH. eapply step_poolInvariant; eassumption.
Qed.

End PoolMore.

(** X4: in every state [Run] reaches the worker goroutines are
    max(1, opts.Parallel), and the jobs being executed are never more. *)
Theorem Run_bounded_parallelism (opts : neo4jrunner.RunnerOpts)
    (jobs : list neo4jrunner.QueryJob) (s : neo4jrunner.state) :
  neo4jrunner.reachable opts jobs s ->
  length (neo4jrunner.workers s) = Z.to_nat (Z.max 1 (neo4jrunner.Parallel opts))
  /\ (length (neo4jrunner.running (neo4jrunner.workers s))
      <= Z.to_nat (Z.max 1 (neo4jrunner.Parallel opts)))%nat.
Proof.
  intros Hr. destruct (reachable_poolInvariant opts jobs s Hr) as (Hlen & _).
  assert (Hp : neo4jrunner.Parallel (neo4jrunner.normalize opts)
               = Z.max 1 (neo4jrunner.Parallel opts)).
  { simpl. destruct (neo4jrunner.Parallel opts <? 1) eqn:E.
    - apply Z.ltb_lt in E. lia.
    - apply Z.ltb_ge in E. lia. }
  rewrite Hp in Hlen. split; [exact Hlen |].
  rewrite <- Hlen. apply running_length.
Qed.

Lemma Run_bounded_parallelism_witness :
  length (neo4jrunner.workers sample.finalFF) = 2%nat
  /\ (length (neo4jrunner.running (neo4jrunner.workers sample.finalFF)) <= 2)%nat.
Proof.
  exact (Run_bounded_parallelism sample.optsFF sample.jobs5 sample.finalFF
           finalFF_reachable).
Defined.

(** X5: let the [Index] fields of [jobs] be distinct and within range.
    When [Run] returns, either every job has been executed, once, or
    fail-fast is on and one of the recorded outcomes carries an error.
    Without fail-fast, or when no job fails, no job is left out. *)
Theorem Run_accounts_for_every_job (jobs : list neo4jrunner.QueryJob)
    (opts : neo4jrunner.RunnerOpts) (s : neo4jrunner.state) :
  NoDup (neo4jrunner.Index <$> jobs) ->
  Forall (fun j => 0 <= neo4jrunner.Index j < Z.of_nat (length jobs)) jobs ->
  neo4jrunner.reachable opts jobs s ->
  neo4jrunner.finished s ->
  (neo4jrunner.executed s).*1 ≡ₚ jobs
  \/ (neo4jrunner.FailFast opts = true
      /\ exists j r, (j, r) ∈ neo4jrunner.executed s /\ neo4jrunner.Err r <> None).
Proof.
  intros Hnd Hrange Hr [_ Hfin].
  destruct (reachable_invariant jobs Hnd Hrange opts s Hr) as (_ & _ & Hperm & _).
  destruct (reachable_poolInvariant opts jobs s Hr)
    as (Hlen & Hstop & _ & Hclosed & Hexit & _).
  destruct (neo4jrunner.stopped s) eqn:Hst; [right; apply Hstop; reflexivity |].
  left.
  assert (Hw : neo4jrunner.workers s !! 0%nat = Some neo4jrunner.Exited).
  { destruct (lookup_lt_is_Some_2 (neo4jrunner.workers s) 0) as [x Hx].
    - rewrite Hlen. simpl. destruct (neo4jrunner.Parallel opts <? 1) eqn:E; [lia |].
      apply Z.ltb_ge in E. lia.
    - rewrite Forall_lookup in Hfin. rewrite (Hfin _ _ Hx) in Hx. exact Hx. }
  destruct (Hexit _ Hw) as [Hc | Hc]; [discriminate |].
  destruct (Hclosed Hc) as [Hc' | Hp]; [discriminate |].
  rewrite Hp, (running_all_exited _ Hfin), !app_nil_r in Hperm. exact Hperm.
Qed.

Lemma Run_accounts_for_every_job_witness :
  (neo4jrunner.executed sample.finalFF).*1 ≡ₚ sample.jobs5
  \/ (neo4jrunner.FailFast sample.optsFF = true
      /\ exists j r,
           (j, r) ∈ neo4jrunner.executed sample.finalFF /\ neo4jrunner.Err r <> None).
Proof.
  exact (Run_accounts_for_every_job sample.jobs5 sample.optsFF sample.finalFF
           jobs5_unique jobs5_in_range finalFF_reachable finalFF_finished).
Defined.

Lemma NoDup_fmap_eq {A B : Type} (f : A -> B) (l : list A) (x y : A) :
  NoDup (f <$> l) -> x ∈ l -> y ∈ l -> f x = f y -> x = y.
Proof.
  intros Hnd Hx Hy Heq.
  apply list_elem_of_lookup in Hx as [i Hi]. apply list_elem_of_lookup in Hy as [j Hj].
  assert (i = j) as ->.
  { apply (NoDup_lookup (f <$> l) i j (f x) Hnd).
    - rewrite list_lookup_fmap, Hi. reflexivity.
    - rewrite list_lookup_fmap, Hj, Heq. reflexivity. }
  congruence.
Qed.

(** X6: let the [Index] fields of [jobs] be distinct and within range.  In
    every state [Run] reaches, and so in the slice it returns, no slot has
    [Skipped] set or a [SkipWhy], and the slot of a job that has not been
    executed still holds the zero value [QueryResult{}]: nothing in the
    slice tells such a job from one that returned no rows. *)
Theorem Run_slots_never_skipped (jobs : list neo4jrunner.QueryJob)
    (opts : neo4jrunner.RunnerOpts) (s : neo4jrunner.state) :
  NoDup (neo4jrunner.Index <$> jobs) ->
  Forall (fun j => 0 <= neo4jrunner.Index j < Z.of_nat (length jobs)) jobs ->
  neo4jrunner.reachable opts jobs s ->
  (forall i r,
      neo4jrunner.out s !! i = Some r ->
      neo4jrunner.Skipped r = false /\ neo4jrunner.SkipWhy r = ""%string)
  /\ (forall job,
        job ∈ jobs ->
        job ∉ (neo4jrunner.executed s).*1 ->
        neo4jrunner.out s !! Z.to_nat (neo4jrunner.Index job)
        = Some neo4jrunner.zeroQueryResult).
Proof.
  intros Hnd Hrange Hr.
  destruct (reachable_invariant jobs Hnd Hrange opts s Hr) as (_ & _ & Hperm & _ & Hzero).
  destruct (reachable_poolInvariant opts jobs s Hr) as (_ & _ & _ & _ & _ & _ & Hskip).
  split.
  - intros i r Hi. rewrite Forall_lookup in Hskip. exact (Hskip i r Hi).
  - intros job Hjob Hnot.
    pose proof Hrange as Hrange'. rewrite Forall_forall in Hrange'.
    apply Hzero; [specialize (Hrange' job Hjob); lia |].
    intros j r Hin Heq.
    assert (Hj : j ∈ jobs).
    { rewrite <- Hperm. apply elem_of_app. left.
      apply list_elem_of_fmap. exists (j, r). split; [reflexivity | exact Hin]. }
    assert (j = job).
    { apply (NoDup_fmap_eq neo4jrunner.Index jobs j job Hnd Hj Hjob).
      pose proof (Hrange' j Hj). pose proof (Hrange' job Hjob). lia. }
    subst j. apply Hnot. apply list_elem_of_fmap.
    exists (job, r). split; [reflexivity | exact Hin].
Qed.

Lemma Run_slots_never_skipped_witness :
  neo4jrunner.out sample.finalFF !! Z.to_nat (neo4jrunner.Index (sample.job 3 "q3"))
  = Some neo4jrunner.zeroQueryResult.
Proof.
  apply (proj2 (Run_slots_never_skipped sample.jobs5 sample.optsFF sample.finalFF
                  jobs5_unique jobs5_in_range finalFF_reachable)).
  - unfold sample.jobs5. do 3 apply list_elem_of_further. apply list_elem_of_here.
  - simpl. intros H.
    apply elem_of_cons in H as [H | H]; [discriminate |].
    apply elem_of_cons in H as [H | H]; [discriminate |].
    inversion H.
Defined.

(** X7: let the [Index] fields of [jobs] be distinct and within range.
    Jobs leave the queue in the order of the list: in every state [Run]
    reaches, the jobs not yet handed to a worker are a tail of [jobs], and
    the jobs before that tail are those executed or being executed. *)
Theorem Run_dispatches_in_order (jobs : list neo4jrunner.QueryJob)
    (opts : neo4jrunner.RunnerOpts) (s : neo4jrunner.state) :
  NoDup (neo4jrunner.Index <$> jobs) ->
  Forall (fun j => 0 <= neo4jrunner.Index j < Z.of_nat (length jobs)) jobs ->
  neo4jrunner.reachable opts jobs s ->
  exists sent,
    jobs = sent ++ neo4jrunner.pending s
    /\ sent ≡ₚ (neo4jrunner.executed s).*1 ++ neo4jrunner.running (neo4jrunner.workers s).
Proof.
  intros Hnd Hrange Hr.
  destruct (reachable_invariant jobs Hnd Hrange opts s Hr) as (_ & _ & Hperm & _).
  destruct (reachable_poolInvariant opts jobs s Hr) as (_ & _ & _ & _ & _ & [sent Hsent] & _).
  exists sent. split; [exact Hsent |].
  rewrite Hsent, app_assoc in Hperm.
  apply Permutation_app_inv_r in Hperm. symmetry. exact Hperm.
Qed.

Lemma Run_dispatches_in_order_witness :
  exists sent,
    sample.jobs5 = sent ++ neo4jrunner.pending sample.finalFF
    /\ sent ≡ₚ (neo4jrunner.executed sample.finalFF).*1
               ++ neo4jrunner.running (neo4jrunner.workers sample.finalFF).
Proof.
  exact (Run_dispatches_in_order sample.jobs5 sample.optsFF sample.finalFF
           jobs5_unique jobs5_in_range finalFF_reachable).
Defined.

(** ** [ExecCypher] and [ColumnIndex] *)

(** X8: when the transaction opens, runs and commits and the stream
    reports no error, [ExecCypher] returns, with a nil error, the rows of the
    first [limit] records in the order of the stream (of all the records
    when [limit <= 0]), each row holding one value per key of its record,
    and as columns the keys of the first of those records that has any.
    Whenever it returns an error, the result set is [ResultSet{}]: rows
    never come with an error. *)
Theorem ExecCypher_rows (sess : neo4jrunner.Session) (cypher : string) (limit : Z) :
  (forall res,
      neo4jrunner.txBegin sess = None ->
      neo4jrunner.txRun sess (neo4jrunner.queryText cypher limit) = inr res ->
      neo4jrunner.resErr res = None ->
      neo4jrunner.txCommit sess = None ->
      let kept := if 0 <? limit then take (Z.to_nat limit) (neo4jrunner.records res)
                  else neo4jrunner.records res in
      neo4jrunner.ExecCypher sess cypher limit
      = (neo4jrunner.mkResultSet (resultset.colsAfter [] kept)
           (map neo4jrunner.rowOf kept), None)
      /\ Forall2 (fun row rec => length row = length (neo4jrunner.Keys rec))
           (map neo4jrunner.rowOf kept) kept)
  /\ (forall err,
        snd (neo4jrunner.ExecCypher sess cypher limit) = Some err ->
        fst (neo4jrunner.ExecCypher sess cypher limit) = neo4jrunner.emptyResultSet).
Proof.
  split.
  - intros res Hb Hrun Herr Hcommit kept. split.
    + unfold neo4jrunner.ExecCypher. rewrite Hb, Hrun. subst kept.
      destruct (0 <? limit) eqn:E0.
      * apply Z.ltb_lt in E0.
        destruct (collect_take limit (neo4jrunner.records res) [] [] E0)
          as [exhausted Hc]; [simpl; lia |].
        simpl length in Hc. rewrite Nat.sub_0_r in Hc. rewrite Hc. simpl app.
        rewrite Herr, Hcommit. destruct exhausted; reflexivity.
      * apply Z.ltb_ge in E0. rewrite collect_all by exact E0.
        rewrite Herr, Hcommit. reflexivity.
    + clear. induction kept as [|rec kept IH]; simpl; constructor; [| exact IH].
      unfold neo4jrunner.rowOf. apply length_map.
  - intros err. unfold neo4jrunner.ExecCypher.
    destruct (neo4jrunner.txBegin sess); [reflexivity |].
    destruct (neo4jrunner.txRun sess _) as [e|res]; [reflexivity |].
    destruct (neo4jrunner.collect limit (neo4jrunner.records res) [] [])
      as [[cols rows] exhausted].
    destruct (if exhausted then neo4jrunner.resErr res else None); [reflexivity |].
    destruct (neo4jrunner.txCommit sess); [reflexivity | discriminate].
Qed.

Lemma ExecCypher_rows_witness :
  neo4jrunner.ExecCypher sample.sessThree "MATCH (n) RETURN n" 2
  = (neo4jrunner.mkResultSet ["n"%string]
       [[neo4jrunner.AInt 1]; [neo4jrunner.AInt 2]], None).
Proof.
  refine (proj1 (proj1 (ExecCypher_rows sample.sessThree "MATCH (n) RETURN n" 2)
                   (neo4jrunner.mkResult
                      [sample.record 1; sample.record 2; sample.record 3] None)
                   _ _ _ _)); reflexivity.
Defined.

Lemma string_app_assoc (a b c : string) :
  ((a ++ b) ++ c = a ++ (b ++ c))%string.
Proof.
  induction a as [|x a IH]; [reflexivity |].
  change (String x ((a ++ b) ++ c) = String x (a ++ (b ++ c)))%string.
  f_equal. exact IH.
Qed.

Lemma ToLower_app (a b : string) :
  strings.ToLower (a ++ b) = (strings.ToLower a ++ strings.ToLower b)%string.
Proof.
  induction a as [|c a IH]; [reflexivity |].
  change (String (strings.toLowerByte c) (strings.ToLower (a ++ b))
          = String (strings.toLowerByte c) (strings.ToLower a ++ strings.ToLower b))%string.
  f_equal. exact IH.
Qed.

Lemma isASCII_app (a b : string) :
  strings.isASCII (a ++ b) = strings.isASCII a && strings.isASCII b.
Proof.
  unfold strings.isASCII. induction a as [|c a IH]; [reflexivity |].
  change (String c a ++ b)%string with (String c (a ++ b)).
  cbn [list_ascii_of_string forallb]. rewrite IH, andb_assoc. reflexivity.
Qed.

Lemma string_of_uint_isASCII (d : Decimal.uint) :
  strings.isASCII (NilEmpty.string_of_uint d) = true.
Proof. induction d; [reflexivity | exact IHd ..]. Qed.

Lemma Sprintf_d_isASCII (n : Z) : strings.isASCII (Sprintf_d n) = true.
Proof.
  unfold Sprintf_d, NilZero.string_of_int, NilZero.string_of_uint.
  destruct (Z.to_int n) as [d|d]; destruct d; try reflexivity;
    exact (string_of_uint_isASCII _).
Qed.

(** X9: for [limit > 0] and a query text of ASCII bytes, the text handed
    to the backend always contains "limit", case ignored: either the
    trimmed query already did, anywhere in its text, and it is sent as it
    is, or "LIMIT n" was appended.  The text handed over is ASCII too. *)
Theorem queryText_has_limit (cypher : string) (limit : Z) :
  strings.isASCII cypher = true ->
  0 < limit ->
  strings.Contains (strings.ToLower (neo4jrunner.queryText cypher limit)) "limit" = true
  /\ strings.isASCII (neo4jrunner.queryText cypher limit) = true
  /\ (neo4jrunner.queryText cypher limit = strings.TrimSpace cypher
      \/ neo4jrunner.queryText cypher limit
         = (strings.TrimSpace cypher ++ String "010" "LIMIT " ++ Sprintf_d limit)%string).
Proof.
  intros Hascii Hpos. unfold neo4jrunner.queryText.
  destruct (0 <? limit) eqn:E0; [| apply Z.ltb_ge in E0; lia]. cbn [andb].
  destruct (strings.Contains (strings.ToLower (strings.TrimSpace cypher)) "limit") eqn:Hc;
    cbn [negb].
  - split_and!; [exact Hc | apply TrimSpace_isASCII, Hascii | left; reflexivity].
  - split_and!; [| | right; reflexivity].
    + apply Contains_occurs.
      exists ((strings.ToLower (strings.TrimSpace cypher)) ++ (String "010" ""))%string,
        (" " ++ (strings.ToLower (Sprintf_d limit)))%string.
      rewrite !ToLower_app. simpl.
      rewrite !string_app_assoc. reflexivity.
    + rewrite !isASCII_app, (TrimSpace_isASCII _ Hascii), Sprintf_d_isASCII. reflexivity.
Qed.

Lemma queryText_has_limit_witness :
  strings.Contains (strings.ToLower (neo4jrunner.queryText "MATCH (n) RETURN n" 25)) "limit"
  = true.
Proof.
  apply (proj1 (queryText_has_limit "MATCH (n) RETURN n" 25 eq_refl ltac:(lia))).
Defined.

Lemma columnIndexFrom_lookup (cols : list string) :
  forall (i : nat) (m : gmap string nat) (c : string) (n : nat),
    resultset.columnIndexFrom i cols m !! c = Some n
    <-> (exists k, n = (i + k)%nat /\ cols !! k = Some c
                   /\ forall j, (k < j)%nat -> cols !! j <> Some c)
        \/ ((c ∉ cols) /\ m !! c = Some n).
Proof.
  induction cols as [|c0 cols IH]; intros i m c n; cbn [resultset.columnIndexFrom].
  - split.
    + intros H. right. split; [apply not_elem_of_nil | exact H].
    + intros [(k & _ & Hk & _) | [_ H]]; [discriminate | exact H].
  - rewrite IH. split.
    + intros [(k & -> & Hk & Hlater) | [Hout Hm]].
      * left. exists (S k). split; [lia |]. split; [exact Hk |].
        intros [|j] Hj; [lia |]. simpl. apply Hlater. lia.
      * destruct (decide (c0 = c)) as [->|Hne].
        -- rewrite lookup_insert_eq in Hm. injection Hm as <-.
           left. exists O. split; [lia |]. split; [reflexivity |].
           intros [|j] Hj; [lia |]. simpl. intros Hj'. apply Hout.
           apply list_elem_of_lookup. eauto.
        -- rewrite lookup_insert_ne in Hm by exact Hne.
           right. split; [| exact Hm]. apply not_elem_of_cons. split; [congruence | exact Hout].
    + intros [(k & -> & Hk & Hlater) | [Hout Hm]].
      * destruct k as [|k].
        -- simpl in Hk. injection Hk as ->. right. split.
           ++ intros Hin. apply list_elem_of_lookup in Hin as [j Hj].
              apply (Hlater (S j)); [lia | exact Hj].
           ++ rewrite lookup_insert_eq. f_equal. lia.
        -- left. exists k. split; [lia |]. split; [exact Hk |].
           intros j Hj. apply (Hlater (S j)). lia.
      * apply not_elem_of_cons in Hout as [Hne Hout].
        right. split; [exact Hout |]. rewrite lookup_insert_ne by congruence. exact Hm.
Qed.

(** X10: [rs.ColumnIndex()] maps a name to an index exactly when the name
    is among [rs.Columns], and the index is then that of its last
    occurrence; a name that is no column has no entry. *)
Theorem ColumnIndex_last_occurrence (rs : neo4jrunner.ResultSet) (c : string) :
  (forall i,
      resultset.ColumnIndex rs !! c = Some i
      <-> neo4jrunner.Columns rs !! i = Some c
          /\ forall j, (i < j)%nat -> neo4jrunner.Columns rs !! j <> Some c)
  /\ (resultset.ColumnIndex rs !! c = None <-> c ∉ neo4jrunner.Columns rs).
Proof.
  assert (H : forall i,
             resultset.ColumnIndex rs !! c = Some i
             <-> neo4jrunner.Columns rs !! i = Some c
                 /\ forall j, (i < j)%nat -> neo4jrunner.Columns rs !! j <> Some c).
  { intros i. unfold resultset.ColumnIndex. rewrite columnIndexFrom_lookup. split.
    - intros [(k & -> & Hk) | [_ Hm]]; [exact Hk | rewrite lookup_empty in Hm; discriminate].
    - intros Hk. left. exists i. split; [reflexivity | exact Hk]. }
  split; [exact H |].
  split.
  - intros Hnone Hin.
    assert (Hlast : exists i, neo4jrunner.Columns rs !! i = Some c
                              /\ forall j, (i < j)%nat -> neo4jrunner.Columns rs !! j <> Some c).
    { clear -Hin. induction (neo4jrunner.Columns rs) as [|c0 cols IH]; [inversion Hin |].
      destruct (decide (c ∈ cols)) as [Hc|Hc].
      - destruct (IH Hc) as (i & Hi & Hl). exists (S i). split; [exact Hi |].
        intros [|j] Hj; [lia |]. simpl. apply Hl. lia.
      - apply elem_of_cons in Hin as [->|Hin]; [| contradiction].
        exists O. split; [reflexivity |]. intros [|j] Hj; [lia |]. simpl.
        intros Hj'. apply Hc. apply list_elem_of_lookup. eauto. }
    destruct Hlast as (i & Hi). apply H in Hi. congruence.
  - intros Hout. apply eq_None_not_Some. intros [i E].
    apply H in E as [E _]. apply Hout. apply list_elem_of_lookup. eauto.
Qed.

(** ** The token scans *)

Lemma identRun_ident (t : list ascii) :
  forall i, (i < length (schema.identRun t))%nat ->
    exists c rest, drop i t = c :: rest /\ schema.isIdent c = true.
Proof.
  induction t as [|c t IH]; intros i Hi; simpl in Hi; [lia |].
  destruct (schema.isIdent c) eqn:Hc; [| simpl in Hi; lia].
  destruct i as [|i]; [exists c, t; split; [reflexivity | exact Hc] |].
  simpl in Hi. apply IH. lia.
Qed.

Lemma reLabel_not_at_ident (c : ascii) (t : list ascii) :
  schema.isIdent c = true -> schema.reLabel (c :: t) = None.
Proof.
  intros Hc. unfold schema.reLabel.
  destruct c as [[] [] [] [] [] [] [] []]; try reflexivity; discriminate.
Qed.

Lemma reRel_not_at_ident (c : ascii) (t : list ascii) :
  schema.isIdent c = true -> schema.reRel (c :: t) = None.
Proof.
  intros Hc. unfold schema.reRel.
  destruct c as [[] [] [] [] [] [] [] []]; try reflexivity; discriminate.
Qed.

Lemma reLabel_inv (l : list ascii) (len : nat) (g : string) :
  schema.reLabel l = Some (len, g) ->
  exists t, l = ":"%char :: t /\ schema.identRun t <> []
            /\ len = S (length (schema.identRun t))
            /\ g = string_of_list_ascii (schema.identRun t).
Proof.
  unfold schema.reLabel. destruct l as [|c t]; [discriminate |].
  destruct (Ascii.ascii_dec c ":") as [->|Hne].
  - destruct (schema.identRun t) eqn:Hrun; [discriminate |].
    intros [= <- <-]. exists t. rewrite Hrun. repeat split. discriminate.
  - destruct c as [[] [] [] [] [] [] [] []]; try discriminate. congruence.
Qed.

Lemma reRel_inv (l : list ascii) (len : nat) (g : string) :
  schema.reRel l = Some (len, g) ->
  exists t, l = "["%char :: ":"%char :: t /\ schema.identRun t <> []
            /\ len = S (S (length (schema.identRun t)))
            /\ g = string_of_list_ascii (schema.identRun t).
Proof.
  unfold schema.reRel. destruct l as [|c [|d t]]; try discriminate.
  - destruct c as [[] [] [] [] [] [] [] []]; discriminate.
  - destruct (Ascii.ascii_dec c "[") as [->|Hc];
      [destruct (Ascii.ascii_dec d ":") as [->|Hd] |].
    + destruct (schema.identRun t) eqn:Hrun; [discriminate |].
      intros [= <- <-]. exists t. rewrite Hrun. repeat split. discriminate.
    + destruct d as [[] [] [] [] [] [] [] []]; try discriminate. congruence.
    + destruct c as [[] [] [] [] [] [] [] []]; try discriminate. congruence.
Qed.

Lemma reLabel_selfBlank : selfBlank schema.reLabel.
Proof.
  intros c t len g Hm i Hi.
  apply reLabel_inv in Hm as (t' & [= -> ->] & _ & -> & _). simpl in Hi.
  destruct (identRun_ident t' i Hi) as (d & rest & -> & Hd).
  apply reLabel_not_at_ident. exact Hd.
Qed.

Lemma reRel_selfBlank : selfBlank schema.reRel.
Proof.
  intros c t len g Hm i Hi.
  apply reRel_inv in Hm as (t' & [= -> ->] & _ & -> & _). simpl in Hi.
  destruct i as [|i]; [reflexivity |]. simpl.
  destruct (identRun_ident t' i ltac:(lia)) as (d & rest & -> & Hd).
  apply reRel_not_at_ident. exact Hd.
Qed.

Lemma findAll_matchesFrom (re : schema.regexp) :
  selfBlank re ->
  forall l pos skip,
    (forall i, (i < skip)%nat -> (i < length l)%nat -> re (drop i l) = None) ->
    schema.findAll re pos skip l = matchesFrom re pos l.
Proof.
  intros Hre. induction l as [|c t IH]; intros pos skip Hblank; [reflexivity |].
  cbn [schema.findAll matchesFrom]. destruct skip as [|k].
  - destruct (re (c :: t)) as [[len g]|] eqn:Hm.
    + f_equal. apply IH. intros i Hi _. eapply Hre; eassumption.
    + apply IH. intros i Hi. lia.
  - pose proof (Hblank O ltac:(lia) ltac:(simpl; lia)) as H0. simpl in H0. rewrite H0.
    apply IH. intros i Hi Hl. apply (Hblank (S i)); simpl; lia.
Qed.

Lemma matchesFrom_elem (re : schema.regexp) (l : list ascii) :
  forall pos p g,
    (p, g) ∈ matchesFrom re pos l
    <-> exists k len, p = (pos + k)%nat /\ (k < length l)%nat
                      /\ re (drop k l) = Some (len, g).
Proof.
  induction l as [|c t IH]; intros pos p g; cbn [matchesFrom].
  - split; [intros H; inversion H | intros (k & len & _ & Hk & _); simpl in Hk; lia].
  - assert (Htail : (p, g) ∈ matchesFrom re (S pos) t
                    <-> exists k len, p = (pos + S k)%nat /\ (k < length t)%nat
                                      /\ re (drop (S k) (c :: t)) = Some (len, g)).
    { rewrite IH. split; intros (k & len & -> & Hk & Hm); exists k, len;
        (split; [lia | split; [exact Hk | exact Hm]]). }
    destruct (re (c :: t)) as [[len0 g0]|] eqn:Hm0.
    + rewrite elem_of_cons, Htail. split.
      * intros [[= -> ->] | (k & len & -> & Hk & Hm)].
        -- exists O, len0. split; [lia | split; [simpl; lia | exact Hm0]].
        -- exists (S k), len. split; [reflexivity | split; [simpl; lia | exact Hm]].
      * intros ([|k] & len & -> & Hk & Hm).
        -- left. simpl in Hm. rewrite Hm0 in Hm. injection Hm as _ ->.
           f_equal. lia.
        -- right. exists k, len. split; [reflexivity | split; [simpl in Hk; lia | exact Hm]].
    + rewrite Htail. split.
      * intros (k & len & -> & Hk & Hm). exists (S k), len.
        split; [reflexivity | split; [simpl; lia | exact Hm]].
      * intros ([|k] & len & -> & Hk & Hm).
        -- simpl in Hm. congruence.
        -- exists k, len. split; [reflexivity | split; [simpl in Hk; lia | exact Hm]].
Qed.

Lemma reLabel_match (s : string) (pos : nat) (g : string) :
  (pos, g) ∈ schema.FindAllStringSubmatchIndex schema.reLabel s
  <-> exists t,
        drop pos (list_ascii_of_string s) = ":"%char :: t
        /\ schema.identRun t <> []
        /\ g = string_of_list_ascii (schema.identRun t).
Proof.
  unfold schema.FindAllStringSubmatchIndex.
  rewrite (findAll_matchesFrom _ reLabel_selfBlank) by (intros; lia).
  rewrite matchesFrom_elem. split.
  - intros (k & len & -> & _ & Hm). simpl.
    apply reLabel_inv in Hm as (t & Hd & Hne & _ & ->). eauto.
  - intros (t & Hd & Hne & ->). exists pos, (S (length (schema.identRun t))).
    split; [reflexivity |]. split.
    + destruct (decide (pos < length (list_ascii_of_string s))%nat) as [|Hge]; [assumption |].
      rewrite drop_ge in Hd by lia. discriminate.
    + rewrite Hd. unfold schema.reLabel.
      destruct (schema.identRun t); [contradiction | reflexivity].
Qed.

Lemma reRel_match (s : string) (pos : nat) (g : string) :
  (pos, g) ∈ schema.FindAllStringSubmatchIndex schema.reRel s
  <-> exists t,
        drop pos (list_ascii_of_string s) = "["%char :: ":"%char :: t
        /\ schema.identRun t <> []
        /\ g = string_of_list_ascii (schema.identRun t).
Proof.
  unfold schema.FindAllStringSubmatchIndex.
  rewrite (findAll_matchesFrom _ reRel_selfBlank) by (intros; lia).
  rewrite matchesFrom_elem. split.
  - intros (k & len & -> & _ & Hm). simpl.
    apply reRel_inv in Hm as (t & Hd & Hne & _ & ->). eauto.
  - intros (t & Hd & Hne & ->). exists pos, (S (S (length (schema.identRun t)))).
    split; [reflexivity |]. split.
    + destruct (decide (pos < length (list_ascii_of_string s))%nat) as [|Hge]; [assumption |].
      rewrite drop_ge in Hd by lia. discriminate.
    + rewrite Hd. unfold schema.reRel.
      destruct (schema.identRun t); [contradiction | reflexivity].
Qed.

(** X11: the scan for [:([A-Za-z0-9_]+)] reports a match at an offset
    exactly when the byte there is ':' and an identifier byte follows, with
    the whole run of identifier bytes as its token, and the scan for
    [\[:([A-Za-z0-9_]+)] exactly when the bytes there are '[' and ':' and
    an identifier byte follows: skipping past a match hides no other
    match. *)
Theorem FindAllStringSubmatchIndex_complete (s : string) (pos : nat) (g : string) :
  ((pos, g) ∈ schema.FindAllStringSubmatchIndex schema.reLabel s
   <-> exists t,
         drop pos (list_ascii_of_string s) = ":"%char :: t
         /\ schema.identRun t <> []
         /\ g = string_of_list_ascii (schema.identRun t))
  /\ ((pos, g) ∈ schema.FindAllStringSubmatchIndex schema.reRel s
      <-> exists t,
            drop pos (list_ascii_of_string s) = "["%char :: ":"%char :: t
            /\ schema.identRun t <> []
            /\ g = string_of_list_ascii (schema.identRun t)).
Proof. split; [apply reLabel_match | apply reRel_match]. Qed.

(** ** [CanRunCypher] and the inventory *)

#[local] Instance resolved_dec (known : gset string) (m : string) :
  Decision (resolved known m).
Proof. unfold resolved. apply _. Defined.

Lemma CanRunCypher_runnable (cypher : string) (p : schema.Presence) :
  schema.CanRunCypher cypher p = (true, ""%string)
  <-> Forall (resolved (schema.Labels p)) (schema.FindAllStringSubmatch schema.reLabel cypher)
      /\ Forall (resolved (schema.Rels p)) (schema.FindAllStringSubmatch schema.reRel cypher).
Proof.
  unfold schema.CanRunCypher.
  set (labels := schema.FindAllStringSubmatch schema.reLabel cypher).
  set (rels := schema.FindAllStringSubmatch schema.reRel cypher).
  assert (Hl : Forall (fun m => m <> ""%string) labels)
    by (apply findAll_groups, reLabel_group).
  assert (Hr : Forall (fun m => m <> ""%string) rels)
    by (apply findAll_groups, reRel_group).
  split.
  - intros Hrun.
    destruct (decide (Forall (resolved (schema.Labels p)) labels)) as [Hall|Hnot].
    + split; [exact Hall |]. rewrite checkAll_resolved in Hrun by exact Hall.
      destruct (decide (Forall (resolved (schema.Rels p)) rels)) as [Hall'|Hnot];
        [exact Hall' |].
      exfalso. apply not_Forall_Exists in Hnot; [| apply _].
      destruct (first_unresolved _ _ Hnot) as (pre & X & post & Heq & Hpre & HX).
      rewrite Heq in Hrun, Hr. apply Forall_app in Hr as [_ Hr]. inversion Hr; subst.
      rewrite checkAll_first in Hrun by assumption. discriminate.
    + exfalso. apply not_Forall_Exists in Hnot; [| apply _].
      destruct (first_unresolved _ _ Hnot) as (pre & X & post & Heq & Hpre & HX).
      rewrite Heq in Hrun, Hl. apply Forall_app in Hl as [_ Hl]. inversion Hl; subst.
      rewrite checkAll_first in Hrun by assumption. discriminate.
  - intros [Hall Hall']. rewrite !checkAll_resolved by assumption. reflexivity.
Qed.

Lemma missing_label (cypher : string) (p : schema.Presence) (m : string) :
  m ∈ schema.FindAllStringSubmatch schema.reLabel cypher ->
  ~ resolved (schema.Labels p) m ->
  exists X, ~ resolved (schema.Labels p) X
            /\ schema.CanRunCypher cypher p = (false, ("missing label: " ++ X)%string).
Proof.
  intros Hin Hm. unfold schema.CanRunCypher.
  set (labels := schema.FindAllStringSubmatch schema.reLabel cypher) in *.
  assert (Hl : Forall (fun m => m <> ""%string) labels)
    by (apply findAll_groups, reLabel_group).
  assert (HE : Exists (fun m => ~ resolved (schema.Labels p) m) labels).
  { apply Exists_exists. exists m. split; assumption. }
  destruct (first_unresolved _ _ HE) as (pre & X & post & Heq & Hpre & HX).
  exists X. split; [exact HX |].
  rewrite Heq in Hl |- *. apply Forall_app in Hl as [_ Hl]. inversion Hl; subst.
  apply checkAll_first; assumption.
Qed.

(** X12: every match of the relationship pattern is, one byte further, a
    match of the label pattern with the same token.  So a relationship
    type that is no known label makes [CanRunCypher] answer "missing
    label", and a query is runnable only when each of its relationship
    types is both a known label and a known relationship type. *)
Theorem reRel_match_is_reLabel_match (cypher : string) (p : schema.Presence)
    (pos : nat) (R : string) :
  (pos, R) ∈ schema.FindAllStringSubmatchIndex schema.reRel cypher ->
  (S pos, R) ∈ schema.FindAllStringSubmatchIndex schema.reLabel cypher
  /\ (~ resolved (schema.Labels p) R ->
      exists X, ~ resolved (schema.Labels p) X
                /\ schema.CanRunCypher cypher p
                   = (false, ("missing label: " ++ X)%string))
  /\ (schema.CanRunCypher cypher p = (true, ""%string) ->
      resolved (schema.Labels p) R /\ resolved (schema.Rels p) R).
Proof.
  intros Hrel.
  assert (Hlab : (S pos, R) ∈ schema.FindAllStringSubmatchIndex schema.reLabel cypher).
  { apply reRel_match in Hrel as (t & Hd & Hne & ->).
    apply reLabel_match. exists t. split; [| split; [exact Hne | reflexivity]].
    replace (S pos) with (pos + 1)%nat by lia. rewrite <- drop_drop, Hd. reflexivity. }
  assert (HinL : R ∈ schema.FindAllStringSubmatch schema.reLabel cypher).
  { unfold schema.FindAllStringSubmatch. apply list_elem_of_In, in_map_iff.
    exists (S pos, R). split; [reflexivity | apply list_elem_of_In; exact Hlab]. }
  assert (HinR : R ∈ schema.FindAllStringSubmatch schema.reRel cypher).
  { unfold schema.FindAllStringSubmatch. apply list_elem_of_In, in_map_iff.
    exists (pos, R). split; [reflexivity | apply list_elem_of_In; exact Hrel]. }
  split; [exact Hlab | split].
  - intros Hnot. eapply missing_label; eassumption.
  - intros Hrun. apply CanRunCypher_runnable in Hrun as [Hall Hall'].
    rewrite Forall_forall in Hall, Hall'. split; [apply Hall | apply Hall']; assumption.
Qed.

Lemma reRel_match_is_reLabel_match_witness :
  (S 15, "MemberOf"%string)
  ∈ schema.FindAllStringSubmatchIndex schema.reLabel sample.cypherMembers.
Proof.
  apply (reRel_match_is_reLabel_match sample.cypherMembers sample.presenceAD 15 "MemberOf").
  assert (E : schema.FindAllStringSubmatchIndex schema.reRel sample.cypherMembers
              = [(15%nat, "MemberOf"%string)]) by (vm_compute; reflexivity).
  rewrite E. apply list_elem_of_here.
Defined.

Lemma addLower_elem (names : list string) :
  forall (m : gset string) (x : string),
    x ∈ presence.addLower names m
    <-> x ∈ m \/ exists l, l ∈ names /\ strings.ToLower l = x.
Proof.
  induction names as [|n names IH]; intros m x; cbn [presence.addLower].
  - split; [intros H; left; exact H |].
    intros [H | (l & Hl & _)]; [exact H | inversion Hl].
  - rewrite IH, elem_of_union, elem_of_singleton. split.
    + intros [[-> | H] | (l & Hl & He)].
      * right. exists n. split; [apply list_elem_of_here | reflexivity].
      * left. exact H.
      * right. exists l. split; [apply list_elem_of_further; exact Hl | exact He].
    + intros [H | (l & Hl & He)].
      * left. right. exact H.
      * apply elem_of_cons in Hl as [-> | Hl].
        -- left. left. symmetry. exact He.
        -- right. exists l. split; assumption.
Qed.

(** X13: for an inventory whose names are ASCII text, the presence index
    built from it holds exactly the lowercase forms of the inventory's
    names, and a query is runnable against it exactly when each token of
    the label scan equals, case ignored, a label of the inventory and each
    token of the relationship scan equals, case ignored, a relationship
    type of the inventory. *)
Theorem PresenceFromSummary_runnable (s : presence.Summary) (cypher : string) :
  Forall (fun l => strings.isASCII l = true) (presence.Labels s) ->
  Forall (fun r => strings.isASCII r = true) (presence.Rels s) ->
  (forall x,
      (x ∈ schema.Labels (presence.PresenceFromSummary s)
       <-> exists l, l ∈ presence.Labels s /\ strings.ToLower l = x)
      /\ (x ∈ schema.Rels (presence.PresenceFromSummary s)
          <-> exists r, r ∈ presence.Rels s /\ strings.ToLower r = x))
  /\ (schema.CanRunCypher cypher (presence.PresenceFromSummary s) = (true, ""%string)
      <-> (forall m, m ∈ schema.FindAllStringSubmatch schema.reLabel cypher ->
             exists l, l ∈ presence.Labels s /\ strings.ToLower l = strings.ToLower m)
          /\ (forall m, m ∈ schema.FindAllStringSubmatch schema.reRel cypher ->
                exists r, r ∈ presence.Rels s /\ strings.ToLower r = strings.ToLower m)).
Proof.
  intros _ _.
  assert (Hmem : forall x,
             (x ∈ schema.Labels (presence.PresenceFromSummary s)
              <-> exists l, l ∈ presence.Labels s /\ strings.ToLower l = x)
             /\ (x ∈ schema.Rels (presence.PresenceFromSummary s)
                 <-> exists r, r ∈ presence.Rels s /\ strings.ToLower r = x)).
  { intros x. simpl. rewrite !addLower_elem. split; split.
    - intros [H | H]; [inversion H | exact H].
    - intros H. right. exact H.
    - intros [H | H]; [inversion H | exact H].
    - intros H. right. exact H. }
  split; [exact Hmem |].
  rewrite CanRunCypher_runnable, !Forall_forall. unfold resolved.
  split; intros [Hl Hr]; split; intros m Hm.
  - apply Hmem, Hl, Hm.
  - apply Hmem, Hr, Hm.
  - apply Hmem, Hl, Hm.
  - apply Hmem, Hr, Hm.
Qed.

Lemma PresenceFromSummary_runnable_witness :
  schema.CanRunCypher "MATCH (u:USER)-[:memberof]->(g) RETURN u"
    (presence.PresenceFromSummary
       (presence.mkSummary ["User"; "Group"; "MemberOf"]%string ["MemberOf"]%string))
  = (true, ""%string).
Proof.
  apply (proj2 (PresenceFromSummary_runnable
                  (presence.mkSummary ["User"; "Group"; "MemberOf"]%string
                     ["MemberOf"]%string)
                  "MATCH (u:USER)-[:memberof]->(g) RETURN u"
                  ltac:(repeat constructor) ltac:(repeat constructor))).
  split; intros m Hm.
  - assert (E : schema.FindAllStringSubmatch schema.reLabel
                  "MATCH (u:USER)-[:memberof]->(g) RETURN u"
                = ["USER"; "memberof"]%string) by (vm_compute; reflexivity).
    rewrite E in Hm. apply elem_of_cons in Hm as [-> | Hm].
    + exists "User"%string. split; [apply list_elem_of_here | reflexivity].
    + apply list_elem_of_singleton in Hm as ->.
      exists "MemberOf"%string.
      split; [do 2 apply list_elem_of_further; apply list_elem_of_here | reflexivity].
  - assert (E : schema.FindAllStringSubmatch schema.reRel
                  "MATCH (u:USER)-[:memberof]->(g) RETURN u"
                = ["memberof"]%string) by (vm_compute; reflexivity).
    rewrite E in Hm. apply list_elem_of_singleton in Hm as ->.
    exists "MemberOf"%string. split; [apply list_elem_of_here | reflexivity].
Defined.

(** ** The plan of [main] *)

Lemma planLoop_sorted (schemaSkip : bool) (presence : schema.Presence)
    (rest : list queries.Query) :
  forall (i : nat) outs jobs idx,
    StronglySorted lt idx ->
    Forall (fun k => (k < i)%nat) idx ->
    StronglySorted lt (main.planLoop schemaSkip presence i rest outs jobs idx).2.
Proof.
  induction rest as [|q rest IH]; intros i outs jobs idx Hs Hb; cbn [main.planLoop];
    [exact Hs |].
  destruct (if schemaSkip then schema.CanRunCypher (queries.Cypher q) presence
            else (true, ""%string)) as [[|] why].
  - apply IH.
    + clear -Hs Hb. induction Hs as [|x l _ IHs Hx]; simpl.
      * repeat constructor.
      * inversion Hb; subst. constructor; [apply IHs; assumption |].
        apply Forall_app. split; [exact Hx | repeat constructor; assumption].
    + apply Forall_app. split; [| repeat constructor].
      eapply Forall_impl; [exact Hb |]. simpl. intros; lia.
  - apply IH; [exact Hs |]. eapply Forall_impl; [exact Hb |]. simpl. intros; lia.
Qed.

(** X14: the plan of lines 249-263 gives the jobs the positions they have in
    the [jobs] slice as [Index], so that [Run] gets the distinct, in-range
    indices it needs; it plans one job for each query that is not skipped
    and none for a skipped one; and it keeps the order of the queries.  With
    schema-skip off every query is planned. *)
Theorem plan_jobs (schemaSkip : bool) (presence : schema.Presence)
    (qs : list queries.Query) :
  let jobs := (main.plan schemaSkip presence qs).1.2 in
  let jobToQueryIdx := (main.plan schemaSkip presence qs).2 in
  length jobs = length jobToQueryIdx
  /\ (forall j job, jobs !! j = Some job -> neo4jrunner.Index job = Z.of_nat j)
  /\ NoDup (neo4jrunner.Index <$> jobs)
  /\ Forall (fun job => 0 <= neo4jrunner.Index job < Z.of_nat (length jobs)) jobs
  /\ StronglySorted lt jobToQueryIdx
  /\ (forall j i, jobToQueryIdx !! j = Some i ->
        exists q, qs !! i = Some q /\ jobs !! j = Some (jobFor j q))
  /\ (forall i q, qs !! i = Some q ->
        (i ∈ jobToQueryIdx <-> skipReason schemaSkip presence q = None))
  /\ (schemaSkip = false -> length jobs = length qs).
Proof.
  intros jobs idx. subst jobs idx.
  pose proof (plan_planned schemaSkip presence qs) as Hplan.
  pose proof (planLoop_sorted schemaSkip presence qs O
                (replicate (length qs) report.zeroOutput) [] []
                (SSorted_nil _) (Forall_nil_2 _)) as Hsorted.
  fold (main.plan schemaSkip presence qs) in Hsorted.
  destruct (main.plan schemaSkip presence qs) as [[outs jobs] idx]. simpl in *.
  destruct (planned_jobs_dense _ _ _ _ _ _ _ Hplan) as [Hnd Hrange].
  destruct Hplan as (H1 & H2 & H3 & H4 & H5 & H6).
  assert (Hmem : forall i q, qs !! i = Some q ->
                   (i ∈ idx <-> skipReason schemaSkip presence q = None)).
  { intros i q Hq. specialize (H6 i q (lookup_lt_Some _ _ _ Hq) Hq).
    destruct (skipReason schemaSkip presence q) as [why|].
    - destruct H6 as [_ Hn]. split; [contradiction | discriminate].
    - split; [reflexivity | intros _; exact H6]. }
  split_and!; try assumption.
  - intros j job Hjob.
    destruct (lookup_lt_is_Some_2 idx j) as [k Hk].
    { rewrite <- H2. eapply lookup_lt_Some. exact Hjob. }
    destruct (H5 j k Hk) as (q & _ & _ & Hjob'). rewrite Hjob in Hjob'.
    injection Hjob' as ->. reflexivity.
  - intros j i Hj. destruct (H5 j i Hj) as (q & Hq & _ & Hjob). eauto.
  - intros ->. rewrite H2.
    assert (Hperm : idx ≡ₚ seq 0 (length qs)).
    { apply NoDup_Permutation; [exact H4 | apply NoDup_seq |].
      intros i. rewrite elem_of_seq. split.
      - intros Hi. rewrite Forall_forall in H3. specialize (H3 i Hi). lia.
      - intros Hi. destruct (lookup_lt_is_Some_2 qs i ltac:(lia)) as [q Hq].
        apply (Hmem i q Hq). reflexivity. }
    rewrite Hperm. apply length_seq.
Qed.

(** ** [findQueryByID] *)

(** X15: [findQueryByID] answers [true] exactly when some query of the list
    has the ID; the query it returns is then the first one with that ID;
    when none has it, it returns the zero [Query]. *)
Theorem findQueryByID_first (qs : list queries.Query) (id : string) :
  ((cli.findQueryByID qs id).2 = true
   <-> exists q, q ∈ qs /\ queries.ID q = id)
  /\ ((cli.findQueryByID qs id).2 = true ->
      exists before after,
        qs = before ++ (cli.findQueryByID qs id).1 :: after
        /\ queries.ID (cli.findQueryByID qs id).1 = id
        /\ Forall (fun q => queries.ID q <> id) before)
  /\ ((cli.findQueryByID qs id).2 = false ->
      (cli.findQueryByID qs id).1 = cli.zeroQuery).
Proof.
  induction qs as [|q qs (IH1 & IH2 & IH3)]; cbn [cli.findQueryByID].
  - split_and!.
    + split; [discriminate | intros (q & Hq & _); inversion Hq].
    + discriminate.
    + reflexivity.
  - destruct (String.eqb_spec (queries.ID q) id) as [He|Hne]; simpl.
    + split_and!.
      * split; [intros _; exists q; split; [apply list_elem_of_here | exact He] | reflexivity].
      * intros _. exists [], qs. split_and!; [reflexivity | exact He | constructor].
      * discriminate.
    + split_and!.
      * rewrite IH1. split; intros (q' & Hq' & Hid).
        -- exists q'. split; [apply list_elem_of_further; exact Hq' | exact Hid].
        -- apply elem_of_cons in Hq' as [-> | Hq']; [contradiction | eauto].
      * intros Ht. destruct (IH2 Ht) as (before & after & Heq & Hid & Hb).
        exists (q :: before), after. split_and!.
        -- simpl. f_equal. exact Heq.
        -- exact Hid.
        -- constructor; assumption.
      * exact IH3.
Qed.

(** ** [queries.Order] *)

Section Ordering.

Import catalog.












End Ordering.



Example TestOrder :
  queries.ID <$> catalog.Order sample.testOrderInput
  = ["ad-all-users-samaccountname"; "ad-all-computers-fqdn"; "ad-domain-admins";
     "ad-domain-controllers"; "y"; "z"; "x"]%string.
Proof. vm_compute. reflexivity. Qed.

(** ** [safeSheetName] and [neo4jQuoteIdent] *)

Lemma string_length_of_list (l : list ascii) :
  String.length (string_of_list_ascii l) = length l.
Proof. induction l as [|c l IH]; simpl; [reflexivity | rewrite IH; reflexivity]. Qed.

Lemma string_of_list_empty (l : list ascii) :
  string_of_list_ascii l = ""%string <-> l = [].
Proof. destruct l; split; intros H; (reflexivity || discriminate). Qed.

Lemma list_of_string_empty (s : string) :
  list_ascii_of_string s = [] <-> s = ""%string.
Proof. destruct s; split; intros H; (reflexivity || discriminate). Qed.

Lemma replaceByte_allowed (c d : ascii) :
  In d (sheet.replaceByte c) -> sheet.forbidden d = false.
Proof.
  assert (H : forallb (fun d => negb (sheet.forbidden d)) (sheet.replaceByte c) = true)
    by (destruct c as [[] [] [] [] [] [] [] []]; reflexivity).
  rewrite forallb_forall in H. intros Hd. apply H in Hd.
  apply negb_true_iff in Hd. exact Hd.
Qed.

Lemma replaceByte_empty (c : ascii) :
  sheet.replaceByte c = [] <-> c = "?"%char \/ c = "*"%char.
Proof.
  split.
  - destruct c as [[] [] [] [] [] [] [] []]; try discriminate; auto.
  - intros [-> | ->]; reflexivity.
Qed.

Lemma flat_map_empty {A B : Type} (f : A -> list B) (l : list A) :
  flat_map f l = [] <-> Forall (fun x => f x = []) l.
Proof.
  induction l as [|x l IH]; simpl.
  - split; [constructor | reflexivity].
  - split.
    + intros H. apply app_eq_nil in H as [Hx Hl]. constructor; [exact Hx | apply IH, Hl].
    + intros H. inversion H; subst. rewrite H2. simpl. apply IH. assumption.
Qed.

(** X17: whatever [strings.TrimSpace] strips, a sheet name made by
    [safeSheetName] has at most 31 bytes and none of the bytes ':', '\',
    '/', '?', '*', '[', ']'.  It is empty, despite the default "Sheet",
    exactly when the trimmed input is not empty and made of '?' and '*'
    only. *)
Theorem safeSheetName_safe (TrimSpace : string -> string) (s : string) :
  (String.length (sheet.safeSheetNameWith TrimSpace s) <= 31)%nat
  /\ Forall (fun c => sheet.forbidden c = false)
       (list_ascii_of_string (sheet.safeSheetNameWith TrimSpace s))
  /\ (sheet.safeSheetNameWith TrimSpace s = ""%string
      <-> TrimSpace s <> ""%string
          /\ Forall (fun c => c = "?"%char \/ c = "*"%char)
               (list_ascii_of_string (TrimSpace s))).
Proof.
  unfold sheet.safeSheetNameWith. cbn zeta.
  set (t := if String.eqb (TrimSpace s) "" then "Sheet"%string
            else TrimSpace s).
  set (l := flat_map sheet.replaceByte (list_ascii_of_string t)).
  assert (Hall : Forall (fun c => sheet.forbidden c = false) l).
  { apply Forall_forall. intros d Hd. apply list_elem_of_In, in_flat_map in Hd as (c & _ & Hd).
    eapply replaceByte_allowed. exact Hd. }
  assert (Hcut : (if (31 <? length l)%nat then take 31 l else l) = take 31 l).
  { destruct (31 <? length l)%nat eqn:E; [reflexivity |].
    apply Nat.ltb_ge in E. rewrite take_ge by exact E. reflexivity. }
  rewrite Hcut. split_and!.
  - rewrite string_length_of_list, length_take. lia.
  - rewrite list_ascii_of_string_of_list_ascii. apply Forall_take. exact Hall.
  - rewrite string_of_list_empty.
    assert (Hnil : take 31 l = [] <-> l = []).
    { destruct l; simpl; split; intros H; (reflexivity || discriminate). }
    rewrite Hnil. subst l. rewrite flat_map_empty. subst t.
    destruct (String.eqb_spec (TrimSpace s) "") as [He|Hne].
    + split.
      * intros H. exfalso. inversion H as [|? ? Hc _]; subst. discriminate.
      * intros [Hn _]. contradiction.
    + split.
      * intros H. split; [exact Hne |].
        eapply Forall_impl; [exact H |]. intros c Hc. apply replaceByte_empty. exact Hc.
      * intros [_ H]. eapply Forall_impl; [exact H |]. intros c Hc.
        apply replaceByte_empty. exact Hc.
Qed.

Lemma plain_isIdent (c : ascii) : schemacmd.plain c = schema.isIdent c.
Proof.
  unfold schemacmd.plain, schema.isIdent.
  destruct ((97 <=? N_of_ascii c) && (N_of_ascii c <=? 122))%N,
    ((65 <=? N_of_ascii c) && (N_of_ascii c <=? 90))%N,
    ((48 <=? N_of_ascii c) && (N_of_ascii c <=? 57))%N,
    (N_of_ascii c =? 95)%N; reflexivity.
Qed.

Lemma filter_all {A : Type} (f : A -> bool) (l : list A) :
  List.Forall (fun x => f x = true) l -> List.filter f l = l.
Proof.
  induction 1 as [|x l Hx _ IH]; simpl; [reflexivity |]. rewrite Hx, IH. reflexivity.
Qed.

(** X18: what [neo4jQuoteIdent] returns is never empty and holds only bytes
    of [A-Za-z0-9_], so that it cannot end the pattern it is pasted into; a
    non-empty name made of such bytes is returned unchanged, and so is the
    result when quoted again. *)
Theorem neo4jQuoteIdent_plain (s : string) :
  schemacmd.neo4jQuoteIdent s <> ""%string
  /\ Forall (fun c => schema.isIdent c = true)
       (list_ascii_of_string (schemacmd.neo4jQuoteIdent s))
  /\ (s <> ""%string ->
      Forall (fun c => schema.isIdent c = true) (list_ascii_of_string s) ->
      schemacmd.neo4jQuoteIdent s = s)
  /\ schemacmd.neo4jQuoteIdent (schemacmd.neo4jQuoteIdent s) = schemacmd.neo4jQuoteIdent s.
Proof.
  assert (Hfix : forall t, t <> ""%string ->
                   Forall (fun c => schema.isIdent c = true) (list_ascii_of_string t) ->
                   schemacmd.neo4jQuoteIdent t = t).
  { intros t Hne Hall. unfold schemacmd.neo4jQuoteIdent. cbn zeta.
    rewrite filter_all.
    - rewrite string_of_list_ascii_of_string.
      destruct (String.eqb_spec t "") as [He|_]; [contradiction | reflexivity].
    - eapply List.Forall_impl; [| exact Hall]. intros c Hc. rewrite plain_isIdent. exact Hc. }
  assert (Hne : schemacmd.neo4jQuoteIdent s <> ""%string).
  { unfold schemacmd.neo4jQuoteIdent. cbn zeta.
    destruct (String.eqb_spec
                (string_of_list_ascii (List.filter schemacmd.plain (list_ascii_of_string s)))
                "") as [He|Hne]; [discriminate | exact Hne]. }
  assert (Hall : Forall (fun c => schema.isIdent c = true)
                   (list_ascii_of_string (schemacmd.neo4jQuoteIdent s))).
  { unfold schemacmd.neo4jQuoteIdent. cbn zeta.
    destruct (String.eqb _ ""); [repeat constructor |].
    rewrite list_ascii_of_string_of_list_ascii. apply Forall_forall. intros c Hc.
    apply list_elem_of_In, filter_In in Hc as [_ Hc]. rewrite <- plain_isIdent. exact Hc. }
  split_and!; [exact Hne | exact Hall | apply Hfix | apply Hfix; assumption].
Qed.

Lemma neo4jQuoteIdent_plain_witness :
  schemacmd.neo4jQuoteIdent "Member_Of2" = "Member_Of2"%string.
Proof.
  apply (proj1 (proj2 (proj2 (neo4jQuoteIdent_plain "Member_Of2")))).
  - discriminate.
  - repeat constructor.
Defined.

Example neo4jQuoteIdent_strips :
  schemacmd.neo4jQuoteIdent "User) DETACH DELETE (n" = "UserDETACHDELETEn"%string
  /\ schemacmd.neo4jQuoteIdent "`:-)" = "X"%string.
Proof. split; reflexivity. Qed.

Example safeSheetName_examples :
  sheet.safeSheetName "  AD: Users [all]/enabled?  " = "AD- Users (all)-enabled"%string
  /\ sheet.safeSheetName "   " = "Sheet"%string
  /\ sheet.safeSheetName " ?*? " = ""%string.
Proof. repeat split. Qed.

(** ** [HeaderToKey] *)

Lemma isSpace_toLowerByte (c : ascii) :
  strings.isSpace (strings.toLowerByte c) = strings.isSpace c.
Proof. destruct c as [[] [] [] [] [] [] [] []]; reflexivity. Qed.

Lemma toLowerByte_idem (c : ascii) :
  strings.toLowerByte (strings.toLowerByte c) = strings.toLowerByte c.
Proof. destruct c as [[] [] [] [] [] [] [] []]; reflexivity. Qed.

Lemma toLowerByte_not_upper (c : ascii) :
  strings.isUpper (strings.toLowerByte c) = false.
Proof. destruct c as [[] [] [] [] [] [] [] []]; reflexivity. Qed.

Lemma ToLower_list (s : string) :
  list_ascii_of_string (strings.ToLower s)
  = map strings.toLowerByte (list_ascii_of_string s).
Proof. induction s as [|c s IH]; simpl; [reflexivity | rewrite IH; reflexivity]. Qed.

Lemma ToLower_of_list (l : list ascii) :
  strings.ToLower (string_of_list_ascii l)
  = string_of_list_ascii (map strings.toLowerByte l).
Proof. induction l as [|c l IH]; simpl; [reflexivity | rewrite IH; reflexivity]. Qed.

Lemma trimLeft_lower (l : list ascii) :
  strings.trimLeft (map strings.toLowerByte l)
  = map strings.toLowerByte (strings.trimLeft l).
Proof.
  induction l as [|c l IH]; simpl; [reflexivity |].
  rewrite isSpace_toLowerByte. destruct (strings.isSpace c); [exact IH | reflexivity].
Qed.

Lemma TrimSpace_ToLower (s : string) :
  strings.TrimSpace (strings.ToLower s) = strings.ToLower (strings.TrimSpace s).
Proof.
  unfold strings.TrimSpace.
  rewrite ToLower_list, trimLeft_lower, <- map_rev, trimLeft_lower, <- map_rev.
  symmetry. apply ToLower_of_list.
Qed.

Lemma ToLower_idem (s : string) :
  strings.ToLower (strings.ToLower s) = strings.ToLower s.
Proof.
  induction s as [|c s IH]; simpl; [reflexivity |].
  rewrite toLowerByte_idem, IH. reflexivity.
Qed.

(** A key byte: neither a space nor an upper-case letter. *)
Lemma ReplaceAll_key_bytes (s : string) :
  Forall (fun c => c <> " "%char /\ strings.isUpper c = false)
    (list_ascii_of_string (keys.ReplaceAll (strings.ToLower s) " " "_")).
Proof.
  induction s as [|c s IH]; simpl; [constructor |].
  constructor; [| exact IH].
  destruct (Ascii.eqb_spec (strings.toLowerByte c) " ") as [He|Hne].
  - split; [discriminate | reflexivity].
  - split; [exact Hne | apply toLowerByte_not_upper].
Qed.

Lemma switch_key_bytes (h default : string) (cs : list (list string * string)) :
  Forall (fun c => c <> " "%char /\ strings.isUpper c = false)
    (list_ascii_of_string default) ->
  Forall (fun case =>
            Forall (fun c => c <> " "%char /\ strings.isUpper c = false)
              (list_ascii_of_string case.2)) cs ->
  Forall (fun c => c <> " "%char /\ strings.isUpper c = false)
    (list_ascii_of_string (keys.switch h cs default)).
Proof.
  intros Hd. induction 1 as [|[names key] cs Hk _ IH]; simpl; [exact Hd |].
  destruct (existsb (String.eqb h) names); [exact Hk | exact IH].
Qed.

(** X19: for a header of ASCII text, the key made by [HeaderToKey] holds
    no space and no upper-case letter, and two headers that differ only in
    the case of their letters get the same key: the header in lower case,
    ASCII text too, gets the key of the header. *)
Theorem HeaderToKey_key (h : string) :
  strings.isASCII h = true ->
  Forall (fun c => c <> " "%char /\ strings.isUpper c = false)
    (list_ascii_of_string (keys.HeaderToKey h))
  /\ strings.isASCII (strings.ToLower h) = true
  /\ keys.HeaderToKey (strings.ToLower h) = keys.HeaderToKey h.
Proof.
  intros Hascii. split_and!.
  - unfold keys.HeaderToKey. cbn zeta. apply switch_key_bytes.
    + apply ReplaceAll_key_bytes.
    + unfold keys.cases.
      repeat (constructor;
              [simpl; repeat (constructor; [split; [discriminate | reflexivity] |]);
               constructor |]).
      constructor.
  - apply ToLower_isASCII, Hascii.
  - unfold keys.HeaderToKey. cbn zeta.
    rewrite TrimSpace_ToLower, ToLower_idem. reflexivity.
Qed.

Lemma HeaderToKey_key_witness :
  keys.HeaderToKey (strings.ToLower " Password Set") = keys.HeaderToKey " Password Set".
Proof.
  apply (proj2 (proj2 (HeaderToKey_key " Password Set" eq_refl))).
Defined.

Example HeaderToKey_examples :
  keys.HeaderToKey " Operating System " = "os"%string
  /\ keys.HeaderToKey "Password Set" = "pwdlastset"%string
  /\ keys.HeaderToKey "Last Logon Timestamp" = "last_logon_timestamp"%string.
Proof. repeat split. Qed.

(** ** [Formatter.OneLine] *)

Section Fields.

Import formatter.

Lemma fieldsFrom_words (l : list ascii) :
  forall cur, Forall (fun c => strings.isSpace c = false) cur ->
    Forall word (fieldsFrom cur l).
Proof.
  induction l as [|c l IH]; intros cur Hcur; cbn [fieldsFrom].
  - destruct cur as [|d cur]; [constructor |]. repeat constructor.
    + intros H. apply (f_equal (@length ascii)) in H. rewrite length_rev in H. discriminate.
    + apply Forall_rev. exact Hcur.
  - destruct (strings.isSpace c) eqn:Hc.
    + destruct cur as [|d cur]; [apply IH; constructor |].
      constructor; [| apply IH; constructor]. split.
      * intros H. apply (f_equal (@length ascii)) in H. rewrite length_rev in H. discriminate.
      * apply Forall_rev. exact Hcur.
    + apply IH. constructor; assumption.
Qed.

Lemma fieldsFrom_word (w : list ascii) :
  Forall (fun c => strings.isSpace c = false) w ->
  forall cur rest, fieldsFrom cur (w ++ rest) = fieldsFrom (rev w ++ cur) rest.
Proof.
  induction 1 as [|c w Hc _ IH]; intros cur rest; [reflexivity |].
  cbn [app fieldsFrom]. rewrite Hc, IH. cbn [rev]. rewrite <- app_assoc. reflexivity.
Qed.

Lemma fieldsFrom_join (ws : list (list ascii)) :
  Forall word ws -> fieldsFrom [] (joinList ws [" "%char]) = ws.
Proof.
  induction 1 as [|w ws [Hne Hw] Hws IH]; [reflexivity |].
  destruct ws as [|w' ws].
  - cbn [joinList]. rewrite <- (app_nil_r w) at 1. rewrite fieldsFrom_word by exact Hw.
    cbn [fieldsFrom]. rewrite app_nil_r.
    destruct (rev w) eqn:E.
    + apply (f_equal (@length ascii)) in E. rewrite length_rev in E.
      destruct w; [contradiction | discriminate].
    + rewrite <- E, rev_involutive. reflexivity.
  - change (joinList (w :: w' :: ws) [" "%char])
      with (w ++ " "%char :: joinList (w' :: ws) [" "%char]).
    rewrite fieldsFrom_word by exact Hw. cbn [fieldsFrom]. rewrite app_nil_r.
    change (strings.isSpace " ") with true. cbn iota.
    destruct (rev w) eqn:E.
    + apply (f_equal (@length ascii)) in E. rewrite length_rev in E.
      destruct w; [contradiction | discriminate].
    + rewrite <- E, rev_involutive, IH. reflexivity.
Qed.

Lemma fieldsFrom_replace (old : ascii) (l : list ascii) :
  strings.isSpace old = true ->
  forall cur,
    fieldsFrom cur (map (fun c => if Ascii.eqb c old then " "%char else c) l)
    = fieldsFrom cur l.
Proof.
  intros Hold. induction l as [|c l IH]; intros cur; [reflexivity |].
  cbn [map fieldsFrom]. destruct (Ascii.eqb_spec c old) as [->|Hne].
  - rewrite Hold. change (strings.isSpace " ") with true. cbn iota.
    destruct cur; rewrite IH; reflexivity.
  - destruct (strings.isSpace c); [destruct cur; rewrite IH; reflexivity | apply IH].
Qed.

Lemma ReplaceAll_list (s : string) (old new : ascii) :
  list_ascii_of_string (keys.ReplaceAll s old new)
  = map (fun c => if Ascii.eqb c old then new else c) (list_ascii_of_string s).
Proof. induction s as [|c s IH]; simpl; [reflexivity | rewrite IH; reflexivity]. Qed.

Lemma Fields_words (s : string) :
  Forall word (map list_ascii_of_string (Fields s)).
Proof.
  unfold Fields. rewrite map_map.
  erewrite map_ext; [| intros; apply list_ascii_of_string_of_list_ascii].
  rewrite map_id. apply fieldsFrom_words. constructor.
Qed.

Lemma OneLine_join (s : string) : OneLine s = Join (Fields s) " ".
Proof.
  unfold OneLine, Fields. cbn zeta.
  rewrite !ReplaceAll_list, !fieldsFrom_replace by reflexivity. reflexivity.
Qed.

Lemma Fields_Join (ws : list string) :
  Forall word (map list_ascii_of_string ws) -> Fields (Join ws " ") = ws.
Proof.
  intros Hw. unfold Fields, Join. rewrite list_ascii_of_string_of_list_ascii.
  change (list_ascii_of_string " ") with [" "%char].
  rewrite fieldsFrom_join by exact Hw. rewrite map_map.
  erewrite map_ext; [| intros; apply string_of_list_ascii_of_string].
  apply map_id.
Qed.

End Fields.

Lemma joinList_bytes (ws : list (list ascii)) :
  Forall word ws ->
  Forall (fun c => c = " "%char \/ strings.isSpace c = false)
    (formatter.joinList ws [" "%char]).
Proof.
  induction 1 as [|w ws [_ Hw] Hws IH]; [constructor |].
  assert (Hw' : Forall (fun c => c = " "%char \/ strings.isSpace c = false) w).
  { eapply Forall_impl; [exact Hw |]. intros c Hc. right. exact Hc. }
  destruct ws as [|w' ws]; [exact Hw' |].
  change (formatter.joinList (w :: w' :: ws) [" "%char])
    with (w ++ " "%char :: formatter.joinList (w' :: ws) [" "%char]).
  apply Forall_app. split; [exact Hw' |]. constructor; [left; reflexivity | exact IH].
Qed.

Lemma fieldsFrom_Forall (P : ascii -> Prop) (l : list ascii) :
  forall cur, Forall P cur -> Forall P l -> Forall (Forall P) (formatter.fieldsFrom cur l).
Proof.
  induction l as [|c l IH]; intros cur Hcur Hl; cbn [formatter.fieldsFrom].
  - destruct cur; [constructor |]. constructor; [apply Forall_rev, Hcur | constructor].
  - inversion Hl as [|? ? Hc Hl']; subst.
    destruct (strings.isSpace c).
    + destruct cur; [apply IH; [constructor | exact Hl'] |].
      constructor; [apply Forall_rev, Hcur | apply IH; [constructor | exact Hl']].
    + apply IH; [constructor; assumption | exact Hl'].
Qed.

Lemma joinList_Forall (P : ascii -> Prop) (sep : list ascii) (ws : list (list ascii)) :
  Forall P sep -> Forall (Forall P) ws -> Forall P (formatter.joinList ws sep).
Proof.
  intros Hsep. induction 1 as [|w ws Hw Hws IH]; [constructor |].
  destruct ws as [|w' ws]; [exact Hw |].
  change (formatter.joinList (w :: w' :: ws) sep)
    with (w ++ sep ++ formatter.joinList (w' :: ws) sep).
  apply Forall_app. split; [exact Hw |]. apply Forall_app. split; [exact Hsep | exact IH].
Qed.

Lemma ReplaceAll_isASCII (s : string) (old new : ascii) :
  (N_of_ascii new < 128)%N ->
  strings.isASCII s = true -> strings.isASCII (keys.ReplaceAll s old new) = true.
Proof.
  intros Hnew. unfold strings.isASCII. induction s as [|c s IH]; [reflexivity |].
  cbn [list_ascii_of_string keys.ReplaceAll forallb]. rewrite !andb_true_iff.
  intros [Hc Hs]. split; [| exact (IH Hs)].
  destruct (Ascii.eqb c old); [apply N.ltb_lt, Hnew | exact Hc].
Qed.

Lemma OneLine_isASCII (s : string) :
  strings.isASCII s = true -> strings.isASCII (formatter.OneLine s) = true.
Proof.
  intros Hascii. unfold formatter.OneLine, formatter.Join, formatter.Fields. cbn zeta.
  apply isASCII_Forall. rewrite list_ascii_of_string_of_list_ascii.
  apply joinList_Forall; [repeat constructor |].
  rewrite map_map. apply Forall_map, Forall_forall. intros w Hw.
  rewrite list_ascii_of_string_of_list_ascii.
  revert w Hw. apply Forall_forall, fieldsFrom_Forall; [constructor |].
  apply isASCII_Forall.
  apply ReplaceAll_isASCII; [reflexivity |]. apply ReplaceAll_isASCII; [reflexivity |].
  exact Hascii.
Qed.

(** X20: on ASCII text, [OneLine] returns the fields of the text, the runs
    of bytes that are not white space, joined by single spaces (replacing
    the line breaks first changes nothing): no field is empty, the only
    white space in the result is a single space between two fields, the
    result is ASCII text, and applying [OneLine] again changes nothing. *)
Theorem OneLine_single_spaced (s : string) :
  strings.isASCII s = true ->
  formatter.OneLine s = formatter.Join (formatter.Fields s) " "
  /\ Forall word (map list_ascii_of_string (formatter.Fields s))
  /\ Forall (fun c => c = " "%char \/ strings.isSpace c = false)
       (list_ascii_of_string (formatter.OneLine s))
  /\ strings.isASCII (formatter.OneLine s) = true
  /\ formatter.Fields (formatter.OneLine s) = formatter.Fields s
  /\ formatter.OneLine (formatter.OneLine s) = formatter.OneLine s.
Proof.
  intros Hascii.
  pose proof (Fields_words s) as Hw.
  assert (Hf : formatter.Fields (formatter.OneLine s) = formatter.Fields s).
  { rewrite OneLine_join. apply Fields_Join. exact Hw. }
  split_and!.
  - apply OneLine_join.
  - exact Hw.
  - rewrite OneLine_join. unfold formatter.Join.
    rewrite list_ascii_of_string_of_list_ascii. apply joinList_bytes. exact Hw.
  - apply OneLine_isASCII, Hascii.
  - exact Hf.
  - rewrite (OneLine_join (formatter.OneLine s)), Hf. symmetry. apply OneLine_join.
Qed.

Lemma OneLine_single_spaced_witness :
  formatter.OneLine (formatter.OneLine "MATCH (n)   RETURN  n ")
  = formatter.OneLine "MATCH (n)   RETURN  n ".
Proof.
  apply (OneLine_single_spaced "MATCH (n)   RETURN  n " eq_refl).
Defined.

Example OneLine_example :
  formatter.OneLine "MATCH (u:User)
WHERE u.enabled = true
   RETURN   u.name  " = "MATCH (u:User) WHERE u.enabled = true RETURN u.name"%string.
Proof. vm_compute. reflexivity. Qed.

(** ** The summary sheet and the CSV table *)

Lemma count_sum (t : reporting.totals) (o : report.Output) :
  (reporting.ok (reporting.count t o) + reporting.errc (reporting.count t o)
   + reporting.skipped (reporting.count t o) + reporting.empty (reporting.count t o)
   = S (reporting.ok t + reporting.errc t + reporting.skipped t + reporting.empty t))%nat.
Proof.
  unfold reporting.count.
  destruct (report.Skipped o); [simpl; lia |].
  destruct (negb _); [simpl; lia |].
  destruct (_ =? 0)%nat; simpl; lia.
Qed.

Lemma count_status (t : reporting.totals) (o : report.Output) (st : string)
    (get : reporting.totals -> nat) :
  In (st, get) [("ok"%string, reporting.ok); ("error"%string, reporting.errc);
                ("skipped"%string, reporting.skipped); ("empty"%string, reporting.empty)] ->
  get (reporting.count t o)
  = ((if String.eqb (reporting.summaryStatus o) st then 1 else 0) + get t)%nat.
Proof.
  unfold reporting.count, reporting.summaryStatus.
  intros [[= <- <-] | [[= <- <-] | [[= <- <-] | [[= <- <-] | []]]]];
    destruct (report.Skipped o); try reflexivity;
    destruct (negb _); try reflexivity;
    destruct (_ =? 0)%nat; reflexivity.
Qed.

Lemma foldl_count_sum (outs : list report.Output) (t0 : reporting.totals) :
  (reporting.ok (foldl reporting.count t0 outs)
   + reporting.errc (foldl reporting.count t0 outs)
   + reporting.skipped (foldl reporting.count t0 outs)
   + reporting.empty (foldl reporting.count t0 outs)
   = length outs
     + (reporting.ok t0 + reporting.errc t0 + reporting.skipped t0 + reporting.empty t0))%nat.
Proof.
  revert t0. induction outs as [|o outs IH]; intros t0; [reflexivity |].
  cbn [foldl]. rewrite IH, count_sum. simpl. lia.
Qed.

Lemma foldl_count_status (st : string) (get : reporting.totals -> nat)
    (outs : list report.Output) (t0 : reporting.totals) :
  In (st, get) [("ok"%string, reporting.ok); ("error"%string, reporting.errc);
                ("skipped"%string, reporting.skipped); ("empty"%string, reporting.empty)] ->
  get (foldl reporting.count t0 outs)
  = (length (List.filter (fun o => String.eqb (reporting.summaryStatus o) st) outs)
     + get t0)%nat.
Proof.
  intros Hin. revert t0. induction outs as [|o outs IH]; intros t0; [reflexivity |].
  cbn [foldl List.filter]. rewrite IH, (count_status t0 o st get Hin).
  destruct (String.eqb (reporting.summaryStatus o) st); simpl; lia.
Qed.

(** X21: the totals of the summary sheet add up: every entry is counted
    under exactly one of ok, error, skipped and empty, so the four counters
    sum to the number of entries, and each of them is the number of entries
    with that status (skipped before error, error before empty). *)
Theorem tally_totals (outs : list report.Output) :
  let t := reporting.tally outs in
  (reporting.ok t + reporting.errc t + reporting.skipped t + reporting.empty t
   = length outs)%nat
  /\ reporting.ok t
     = length (List.filter (fun o => String.eqb (reporting.summaryStatus o) "ok") outs)
  /\ reporting.errc t
     = length (List.filter (fun o => String.eqb (reporting.summaryStatus o) "error") outs)
  /\ reporting.skipped t
     = length (List.filter (fun o => String.eqb (reporting.summaryStatus o) "skipped") outs)
  /\ reporting.empty t
     = length (List.filter (fun o => String.eqb (reporting.summaryStatus o) "empty") outs).
Proof.
  cbn zeta. unfold reporting.tally.
  split_and!.
  - rewrite foldl_count_sum. simpl. lia.
  - rewrite (foldl_count_status "ok"%string reporting.ok) by (simpl; tauto). simpl. lia.
  - rewrite (foldl_count_status "error"%string reporting.errc) by (simpl; tauto).
    simpl. lia.
  - rewrite (foldl_count_status "skipped"%string reporting.skipped) by (simpl; tauto).
    simpl. lia.
  - rewrite (foldl_count_status "empty"%string reporting.empty) by (simpl; tauto).
    simpl. lia.
Qed.

(** X22: on the entries that the merge of [main] writes, the two writers
    agree.  A planner skip is "skipped" for both.  An entry made from a
    scheduler outcome is "error" for both exactly when the outcome's error
    has a message that is not empty: a failure whose message is empty is
    reported like a success.  Otherwise the CSV says "ok" where the summary
    sheet says "ok" or, without rows, "empty". *)
Theorem status_of_merged_entries (q : queries.Query) (why : string)
    (r : neo4jrunner.QueryResult) :
  (reporting.summaryStatus (skippedOutput q why) = "skipped"%string
   /\ reporting.csvStatus (skippedOutput q why) = "skipped"%string)
  /\ (reporting.summaryStatus (main.outputOf q r) = "error"%string
      <-> exists err, neo4jrunner.Err r = Some err /\ neo4jrunner.Error err <> ""%string)
  /\ (reporting.csvStatus (main.outputOf q r) = "error"%string
      <-> reporting.summaryStatus (main.outputOf q r) = "error"%string)
  /\ (reporting.summaryStatus (main.outputOf q r) <> "error"%string ->
      reporting.csvStatus (main.outputOf q r) = "ok"%string
      /\ (reporting.summaryStatus (main.outputOf q r) = "ok"%string
          \/ reporting.summaryStatus (main.outputOf q r) = "empty"%string)).
Proof.
  unfold reporting.summaryStatus, reporting.csvStatus, main.outputOf, skippedOutput.
  cbn [report.Skipped report.Error report.Result]. cbn zeta.
  split_and!.
  - reflexivity.
  - reflexivity.
  - destruct (neo4jrunner.Err r) as [err|].
    + destruct (String.eqb_spec (neo4jrunner.Error err) "") as [He|Hne]; cbn [negb].
      * split; [destruct (_ =? 0)%nat; discriminate |].
        intros (err' & [= <-] & Hne). contradiction.
      * split; [intros _; exists err; split; [reflexivity | exact Hne] | reflexivity].
    + simpl. split.
      * destruct (_ =? 0)%nat; discriminate.
      * intros (err' & Hn & _). discriminate.
  - destruct (negb _); [split; reflexivity |].
    split; [discriminate | destruct (_ =? 0)%nat; discriminate].
  - destruct (negb _); [intros H; contradiction |].
    intros _. split; [reflexivity |]. destruct (_ =? 0)%nat; [right | left]; reflexivity.
Qed.

Lemma status_of_merged_entries_witness :
  let r := neo4jrunner.mkQueryResult neo4jrunner.emptyResultSet
             (Some (neo4jrunner.mkError None "")) false "" in
  reporting.csvStatus (main.outputOf (sample.query "q0") r) = "ok"%string
  /\ (reporting.summaryStatus (main.outputOf (sample.query "q0") r) = "ok"%string
      \/ reporting.summaryStatus (main.outputOf (sample.query "q0") r) = "empty"%string).
Proof.
  cbn zeta.
  apply (proj2 (proj2 (proj2 (status_of_merged_entries (sample.query "q0") ""
           (neo4jrunner.mkQueryResult neo4jrunner.emptyResultSet
              (Some (neo4jrunner.mkError None "")) false ""))))).
  vm_compute. discriminate.
Defined.

Lemma leString_total : Total reporting.leString.
Proof.
  intros a b. unfold reporting.leString.
  destruct (String.leb_total a b) as [H | H]; rewrite H; [left | right]; exact I.
Qed.

Lemma keysOf_elem (outs : list report.Output) (k : string) :
  k ∈ reporting.keysOf outs
  <-> exists o, o ∈ outs /\ k ∈ neo4jrunner.Columns (report.Result o).
Proof.
  unfold reporting.keysOf, reporting.sortStrings.
  rewrite merge_sort_Permutation, elem_of_elements, elem_of_list_to_set.
  rewrite list_elem_of_In, in_flat_map.
  split; intros (o & Ho & Hk); exists o; split;
    first [apply list_elem_of_In; assumption | assumption].
Qed.

Lemma recordsOf_length (Value : string -> neo4jrunner.any -> string)
    (keys : list string) (o : report.Output) :
  length (reporting.recordsOf Value keys o)
  = Nat.max 1 (length (neo4jrunner.Rows (report.Result o))).
Proof.
  unfold reporting.recordsOf.
  destruct (neo4jrunner.Rows (report.Result o)) as [|row rows]; [reflexivity |].
  rewrite length_map. simpl. reflexivity.
Qed.

Lemma recordsOf_width (Value : string -> neo4jrunner.any -> string)
    (keys : list string) (o : report.Output) :
  Forall (fun rec => length rec = (4 + length keys)%nat)
    (reporting.recordsOf Value keys o).
Proof.
  unfold reporting.recordsOf.
  destruct (neo4jrunner.Rows (report.Result o)) as [|row rows].
  - constructor; [| constructor]. simpl. rewrite length_map. reflexivity.
  - apply Forall_forall. intros rec Hin. apply list_elem_of_In, in_map_iff in Hin as (r & <- & _).
    unfold reporting.cells. simpl. rewrite length_map. reflexivity.
Qed.

(** X23: the CSV table is rectangular.  Its columns after the four fixed
    ones are the column names of all the entries, each once and in sorted
    order; the header and every record have four fields more than there are
    such columns, whatever the entries' own columns and however long their
    rows; and an entry contributes one record for each of its rows, or a
    single record when it has none. *)
Theorem writeCSV_rectangular (Value : string -> neo4jrunner.any -> string)
    (outs : list report.Output) :
  let keys := reporting.keysOf outs in
  Sorted reporting.leString keys
  /\ NoDup keys
  /\ (forall k, k ∈ keys
                <-> exists o, o ∈ outs /\ k ∈ neo4jrunner.Columns (report.Result o))
  /\ Forall (fun rec => length rec = (4 + length keys)%nat) (reporting.writeCSV Value outs)
  /\ length (reporting.writeCSV Value outs)
     = S (list_sum (map (fun o => Nat.max 1 (length (neo4jrunner.Rows (report.Result o))))
                      outs)).
Proof.
  cbn zeta. split_and!.
  - apply (@Sorted_merge_sort _ _ _ leString_total).
  - unfold reporting.keysOf, reporting.sortStrings.
    rewrite merge_sort_Permutation. apply NoDup_elements.
  - apply keysOf_elem.
  - unfold reporting.writeCSV. constructor; [reflexivity |].
    apply Forall_flat_map, Forall_forall. intros o _. apply recordsOf_width.
  - unfold reporting.writeCSV. cbn [length]. f_equal.
    rewrite length_flat_map. f_equal. apply map_ext. intros o. apply recordsOf_length.
Qed.

(** ** The case-insensitive search of the earlier runner *)




